(** * The scheduled-tweet engine of x-automation

    A shallow embedding of the scheduler module (the JavaScript module that
    exports [scheduleTweet], [removeScheduledTweet], [listScheduledTweets],
    [loadScheduledTweets] and [startScheduler]) and the properties of the
    persisted schedule and of the live timers that follow from it.

    The module is stateful: it reads and rewrites one JSON file, keeps the
    module-level map [activeJobs], creates node-cron tasks and writes to the
    console.  All of that is carried in an explicit [World]; the functions of
    the module are computations in a state-and-exception monad over it. *)

From stdpp Require Import base strings list gmap pretty.
From Stdlib Require Import ZArith NArith Lia.
From Stdlib Require Ascii.

Open Scope N_scope.

(** ** JavaScript strings *)

(** A JavaScript string is a sequence of UTF-16 code units; [length] counts
    code units, which is what [text.length] returns. *)
Definition js_string : Type := list N.

(** An ASCII literal as a JavaScript string. *)
Fixpoint u16 (s : string) : js_string :=
  match s with
  | EmptyString => []
  | String a s' => Ascii.N_of_ascii a :: u16 s'
  end.

(** Template-literal interpolation of a number. *)
Definition dec (n : N) : js_string := u16 (pretty n).
Definition decZ (z : Z) : js_string := u16 (pretty z).
Global Arguments u16 : simpl never.
Global Arguments dec : simpl never.
Global Arguments decZ : simpl never.

(** The code units [String.prototype.trim] strips: ECMAScript WhiteSpace
    and LineTerminator. *)
Definition is_white_space (c : N) : bool :=
  (c =? 0x9) || (c =? 0xA) || (c =? 0xB) || (c =? 0xC) || (c =? 0xD)
  || (c =? 0x20) || (c =? 0xA0) || (c =? 0x1680)
  || ((0x2000 <=? c) && (c <=? 0x200A))
  || (c =? 0x2028) || (c =? 0x2029) || (c =? 0x202F) || (c =? 0x205F)
  || (c =? 0x3000) || (c =? 0xFEFF).

Fixpoint trimStart (s : js_string) : js_string :=
  match s with
  | [] => []
  | c :: s' => if is_white_space c then trimStart s' else s
  end.

Definition trimEnd (s : js_string) : js_string := rev (trimStart (rev s)).

Definition trim (s : js_string) : js_string := trimEnd (trimStart s).

(** [s.substring(0, n)] *)
Definition substring0 (n : nat) (s : js_string) : js_string := take n s.

(** [s.repeat(n)] *)
Definition repeat_str (s : js_string) (n : nat) : js_string :=
  mjoin (replicate n s).

Definition quote : js_string := [0x22].
Definition newline : js_string := [0xA].

(** [`"${text.substring(0, 50)}${text.length > 50 ? '...' : ''}"`], the
    preview every log line of the module prints. *)
Definition preview (text : js_string) : js_string :=
  quote ++ substring0 50 text
        ++ (if (50 <? length text)%nat then u16 "..." else []) ++ quote.

(** ** Data model *)

(** One record of the [scheduled] array.  [lastPosted] is [null] until the
    first successful firing.  [postCount] is a JSON number; the firing
    routine reads it as [postCount || 0], so a record may lack it ([None]).
    Counts stay far below 2^53, where the increment is exact. *)
Record ScheduledPost : Type := mkPost {
  id : js_string;
  text : js_string;
  cronExpression : js_string;
  oneTime : bool;
  createdAt : js_string;
  lastPosted : option js_string;
  postCount : option Z
}.

Global Instance ScheduledPost_eq_dec : EqDecision ScheduledPost.
Proof. solve_decision. Defined.

(** What [scheduledTweetsPath] holds: nothing, something that cannot be read
    or parsed (with the message of the error raised), or a JSON document
    whose [scheduled] field is an array or is missing. *)
Inductive FileContent : Type :=
| NoFile
| Unreadable (message : js_string)
| Document (scheduled : option (list ScheduledPost)).

(** A node-cron task created by [cron.schedule]: the [tweet] its callback
    closes over, and whether it is still scheduled ([stop()] clears it). *)
Record Job : Type := mkJob {
  captured : ScheduledPost;
  running : bool
}.

Inductive Stream : Type := Stdout | Stderr.

(** Everything the module reads or changes.  A task handle is its index in
    [timers]; [activeJobs] is the module-level [Map] from id to handle.
    [write_failure] is the error [writeFileSync] raises, if it raises;
    [written] lists the documents written so far, oldest first; [posted]
    lists the arguments [postTweetFn] was called with; [exited] is the
    status given to [process.exit]. *)
Record World : Type := mkWorld {
  file : FileContent;
  write_failure : option js_string;
  written : list (list ScheduledPost);
  timers : list Job;
  activeJobs : gmap js_string nat;
  sigint_handlers : nat;
  console : list (Stream * js_string);
  posted : list js_string;
  exited : option Z
}.

Definition set_file (f : FileContent) (w : World) : World :=
  mkWorld f (write_failure w) (written w) (timers w) (activeJobs w)
          (sigint_handlers w) (console w) (posted w) (exited w).
Definition set_written (l : list (list ScheduledPost)) (w : World) : World :=
  mkWorld (file w) (write_failure w) l (timers w) (activeJobs w)
          (sigint_handlers w) (console w) (posted w) (exited w).
Definition set_timers (t : list Job) (w : World) : World :=
  mkWorld (file w) (write_failure w) (written w) t (activeJobs w)
          (sigint_handlers w) (console w) (posted w) (exited w).
Definition set_activeJobs (m : gmap js_string nat) (w : World) : World :=
  mkWorld (file w) (write_failure w) (written w) (timers w) m
          (sigint_handlers w) (console w) (posted w) (exited w).
Definition set_sigint_handlers (n : nat) (w : World) : World :=
  mkWorld (file w) (write_failure w) (written w) (timers w) (activeJobs w)
          n (console w) (posted w) (exited w).
Definition set_console (c : list (Stream * js_string)) (w : World) : World :=
  mkWorld (file w) (write_failure w) (written w) (timers w) (activeJobs w)
          (sigint_handlers w) c (posted w) (exited w).
Definition set_posted (p : list js_string) (w : World) : World :=
  mkWorld (file w) (write_failure w) (written w) (timers w) (activeJobs w)
          (sigint_handlers w) (console w) p (exited w).
Definition set_exited (e : option Z) (w : World) : World :=
  mkWorld (file w) (write_failure w) (written w) (timers w) (activeJobs w)
          (sigint_handlers w) (console w) (posted w) e.

(** ** Computations *)

(** How a call ends: with a value, or with [throw new Error(message)]. *)
Inductive Completion (A : Type) : Type :=
| Normal (a : A)
| Throw (message : js_string).
Arguments Normal {A} a.
Arguments Throw {A} message.

Definition Eff (A : Type) : Type := World → Completion A * World.

Global Instance Eff_ret : MRet Eff := λ A a w, (Normal a, w).
Global Instance Eff_bind : MBind Eff := λ A B f m w,
  match m w with
  | (Normal a, w') => f a w'
  | (Throw e, w') => (Throw e, w')
  end.

Definition throw {A : Type} (message : js_string) : Eff A :=
  λ w, (Throw message, w).
Definition get : Eff World := λ w, (Normal w, w).
Definition modify (f : World → World) : Eff unit := λ w, (Normal tt, f w).

Definition run {A : Type} (m : Eff A) (w : World) : World := (m w).2.
Definition result {A : Type} (m : Eff A) (w : World) : Completion A := (m w).1.

(** [console.log] and [console.error] *)
Definition console_log (msg : js_string) : Eff unit :=
  modify (λ w, set_console (console w ++ [(Stdout, msg)]) w).
Definition console_error (msg : js_string) : Eff unit :=
  modify (λ w, set_console (console w ++ [(Stderr, msg)]) w).

Module simpleLogger.
Definition info (msg : js_string) : Eff unit :=
  console_log ([0x2139; 0x20] ++ msg).
Definition success (msg : js_string) : Eff unit :=
  console_log ([0x2713; 0x20] ++ msg).
Definition error (msg : js_string) : Eff unit :=
  console_error ([0x2717; 0x20] ++ msg).
Definition schedule (msg : js_string) : Eff unit :=
  console_log ([0xD83D; 0xDCC5; 0x20] ++ msg).
Definition plain (msg : js_string) : Eff unit :=
  console_log msg.
End simpleLogger.

(** ** The schedule store *)

Definition loadScheduledTweets : Eff (list ScheduledPost) :=
  w ← get;
  match file w with
  | NoFile => mret []
  | Unreadable message =>
      console_error (u16 "Failed to load scheduled tweets: " ++ message);;
      mret []
  | Document None => mret []
  | Document (Some tweets) => mret tweets
  end.

Definition saveScheduledTweets (tweets : list ScheduledPost) : Eff unit :=
  w ← get;
  match write_failure w with
  | None =>
      modify (λ w, set_written (written w ++ [tweets])
                     (set_file (Document (Some tweets)) w))
  | Some message =>
      console_error (u16 "Failed to save scheduled tweets: " ++ message)
  end.

(** What [loadScheduledTweets] returns in a world, as a pure function. *)
Definition stored (w : World) : list ScheduledPost :=
  match file w with
  | Document (Some tweets) => tweets
  | _ => []
  end.

(** ** The job registry *)

(** [job.stop()] *)
Definition stop_job (job : nat) (ts : list Job) : list Job :=
  alter (λ j, mkJob (captured j) false) job ts.

Definition job_stop (job : nat) : Eff unit :=
  modify (λ w, set_timers (stop_job job (timers w)) w).

Definition activeJobs_set (key : js_string) (job : nat) : Eff unit :=
  modify (λ w, set_activeJobs (<[key := job]> (activeJobs w)) w).

Definition activeJobs_delete (key : js_string) : Eff unit :=
  modify (λ w, set_activeJobs (delete key (activeJobs w)) w).

(** A timer is live when its task exists and has not been stopped. *)
Definition live (w : World) (job : nat) : Prop :=
  ∃ j, timers w !! job = Some j ∧ running j = true.

(** ** The scheduler engine *)

(** The readings of the clock and of the random generator a call makes:
    [Date.now()], [Math.random().toString(36)] and
    [new Date().toISOString()]. *)
Record Env : Type := mkEnv {
  Date_now : N;
  Math_random_36 : js_string;
  toISOString : js_string
}.

Definition generateId (env : Env) : js_string :=
  u16 "tweet_" ++ dec (Date_now env) ++ u16 "_"
    ++ take 9 (drop 2 (Math_random_36 env)).

(** [tweets.findIndex((t) => t.id === id)], together with the element
    found; [None] is the index -1. *)
Definition findIndex (key : js_string) (tweets : list ScheduledPost)
  : option (nat * ScheduledPost) :=
  list_find (λ t, id t = key) tweets.

(** The JavaScript number nearest to an integer: the integer itself up to
    2^53 either way, and from there on the nearest number with 53
    significant bits, a tie going to the one whose last bit is 0.  A count
    never comes near the largest number. *)
Definition js_number (x : Z) : Z :=
  let m := Z.abs x in
  if (m <? 2 ^ 53)%Z then x
  else
    let e := (Z.log2 m - 52)%Z in
    let q := Z.shiftr m e in
    let r := Z.land m (Z.ones e) in
    let half := Z.shiftl 1 (e - 1) in
    let q := if (half <? r)%Z || ((r =? half)%Z && Z.odd q)
             then (q + 1)%Z else q in
    (Z.sgn x * Z.shiftl q e)%Z.

(** [a + b] on numbers that hold integers. *)
Definition js_add (a b : Z) : Z := js_number (a + b).
Global Arguments js_add : simpl never.

(** The two assignments of the firing routine to [allTweets[tweetIndex]]. *)
Definition mark_posted (now : js_string) (t : ScheduledPost) : ScheduledPost :=
  {| id := id t;
     text := text t;
     cronExpression := cronExpression t;
     oneTime := oneTime t;
     createdAt := createdAt t;
     lastPosted := Some now;
     postCount :=
       Some (js_add (match postCount t with
                     | Some n => if (n =? 0)%Z then 0%Z else n
                     | None => 0%Z
                     end) 1) |}.

(** How the promise [postTweetFn] returns settles. *)
Inductive PostOutcome : Type :=
| Fulfilled
| Rejected (message : js_string).

Fixpoint forEach {A : Type} (f : A → Eff unit) (l : list A) : Eff unit :=
  match l with
  | [] => mret tt
  | x :: l' => f x;; forEach f l'
  end.

Section Engine.

(** [cron.validate] of node-cron, and the rendering
    [new Date(s).toLocaleString()] of the host, both outside the module. *)
Variable cron_validate : js_string → bool.
Variable toLocaleString : js_string → js_string.

(** [cron.schedule] of node-cron throws on an expression it cannot
    schedule: the message of the error it throws for an expression, [None]
    for an expression it takes. *)
Variable cron_schedule_error : js_string → option js_string.

Definition scheduleTweet (env : Env) (text cronExpression : js_string)
    (oneTime : bool) : Eff ScheduledPost :=
  if negb (cron_validate cronExpression) then
    throw (u16 "Invalid cron expression: " ++ cronExpression)
  else if bool_decide (text = []) || (length (trim text) =? 0)%nat then
    throw (u16 "Tweet text cannot be empty")
  else if (280 <? length text)%nat then
    throw (u16 "Tweet exceeds 280 characters ("
             ++ dec (N.of_nat (length text)) ++ u16 " chars)")
  else
    let scheduledTweet :=
      {| id := generateId env;
         text := trim text;
         cronExpression := cronExpression;
         oneTime := oneTime;
         createdAt := toISOString env;
         lastPosted := None;
         postCount := Some 0%Z |} in
    tweets ← loadScheduledTweets;
    let tweets := tweets ++ [scheduledTweet] in
    saveScheduledTweets tweets;;
    simpleLogger.schedule (u16 "Tweet scheduled: " ++ preview text);;
    simpleLogger.info (u16 "ID: " ++ id scheduledTweet);;
    simpleLogger.info (u16 "Schedule: " ++ cronExpression);;
    simpleLogger.info
      (u16 "One-time: " ++ if oneTime then u16 "Yes" else u16 "No (recurring)");;
    mret scheduledTweet.

Definition removeScheduledTweet (key : js_string) : Eff bool :=
  tweets ← loadScheduledTweets;
  match findIndex key tweets with
  | None =>
      simpleLogger.error (u16 "Scheduled tweet not found: " ++ key);;
      mret false
  | Some (index, removed) =>
      let tweets := delete index tweets in
      saveScheduledTweets tweets;;
      w ← get;
      match activeJobs w !! key with
      | Some job => job_stop job;; activeJobs_delete key
      | None => mret tt
      end;;
      simpleLogger.success (u16 "Removed scheduled tweet: " ++ key);;
      simpleLogger.info (u16 "Text: " ++ preview (text removed));;
      mret true
  end.

(** One iteration of the [forEach] of [listScheduledTweets]. *)
Definition print_entry (index : nat) (tweet : ScheduledPost) : Eff unit :=
  simpleLogger.plain
    (newline ++ dec (N.of_nat (index + 1)) ++ u16 ". ID: " ++ id tweet);;
  simpleLogger.plain (u16 "   Text: " ++ preview (text tweet));;
  simpleLogger.plain (u16 "   Schedule: " ++ cronExpression tweet);;
  simpleLogger.plain
    (u16 "   One-time: " ++ if oneTime tweet then u16 "Yes" else u16 "No");;
  simpleLogger.plain (u16 "   Created: " ++ toLocaleString (createdAt tweet));;
  match lastPosted tweet with
  | Some (c :: s) =>
      simpleLogger.plain (u16 "   Last posted: " ++ toLocaleString (c :: s));;
      simpleLogger.plain
        (u16 "   Post count: "
           ++ match postCount tweet with
              | Some n => decZ n
              | None => u16 "undefined"
              end)
  | _ => mret tt
  end.

Fixpoint print_entries (index : nat) (tweets : list ScheduledPost) : Eff unit :=
  match tweets with
  | [] => mret tt
  | tweet :: rest => print_entry index tweet;; print_entries (S index) rest
  end.

Definition listScheduledTweets : Eff (list ScheduledPost) :=
  tweets ← loadScheduledTweets;
  if (length tweets =? 0)%nat then
    simpleLogger.info (u16 "No scheduled tweets found.");;
    mret tweets
  else
    simpleLogger.plain
      (newline ++ [0xD83D; 0xDCCB] ++ u16 " Scheduled Tweets:" ++ newline);;
    simpleLogger.plain (repeat_str [0x2500] 60);;
    print_entries 0 tweets;;
    simpleLogger.plain (newline ++ repeat_str [0x2500] 60 ++ newline);;
    mret tweets.

(** [cron.schedule(tweet.cronExpression, callback)]: it throws on an
    expression it cannot schedule, and otherwise makes a new task, scheduled
    from the start, whose callback closes over [tweet]. *)
Definition cron_schedule (tweet : ScheduledPost) : Eff nat :=
  match cron_schedule_error (cronExpression tweet) with
  | Some message => throw message
  | None =>
      w ← get;
      modify (set_timers (timers w ++ [mkJob tweet true]));;
      mret (length (timers w))
  end.

(** The callback of a task, up to the [await]: it calls
    [postTweetFn(tweet.text)]. *)
Definition callback_call (tweet : ScheduledPost) : Eff unit :=
  simpleLogger.schedule (u16 "Executing scheduled tweet: " ++ id tweet);;
  modify (λ w, set_posted (posted w ++ [text tweet]) w).

(** The callback from the [await] on, once the promise has settled; [now]
    is [new Date().toISOString()] at that time. *)
Definition callback_resume (tweet : ScheduledPost) (job : nat)
    (outcome : PostOutcome) (now : js_string) : Eff unit :=
  match outcome with
  | Fulfilled =>
      allTweets ← loadScheduledTweets;
      match findIndex (id tweet) allTweets with
      | Some (tweetIndex, _) =>
          let allTweets := alter (mark_posted now) tweetIndex allTweets in
          allTweets ←
            (if oneTime tweet then
               job_stop job;;
               activeJobs_delete (id tweet);;
               simpleLogger.info (u16 "One-time tweet removed: " ++ id tweet);;
               mret (delete tweetIndex allTweets)
             else mret allTweets);
          saveScheduledTweets allTweets
      | None => mret tt
      end
  | Rejected message =>
      simpleLogger.error
        (u16 "Failed to post scheduled tweet " ++ id tweet ++ u16 ": "
           ++ message)
  end.

Definition callback (tweet : ScheduledPost) (job : nat)
    (outcome : PostOutcome) (now : js_string) : Eff unit :=
  callback_call tweet;; callback_resume tweet job outcome now.

(** The body of the [forEach] of [startScheduler]. *)
Definition schedule_entry (tweet : ScheduledPost) : Eff unit :=
  job ← cron_schedule tweet;
  activeJobs_set (id tweet) job;;
  simpleLogger.success
    (u16 "Scheduled: " ++ id tweet ++ u16 " (" ++ cronExpression tweet
       ++ u16 ")").

(** The handler [startScheduler] installs for SIGINT. *)
Definition on_SIGINT : Eff unit :=
  simpleLogger.info (newline ++ u16 "Stopping scheduler...");;
  modify (λ w, set_timers
                 (map_fold (λ _ job ts, stop_job job ts) (timers w)
                           (activeJobs w)) w);;
  simpleLogger.success (u16 "Scheduler stopped. Goodbye!");;
  modify (set_exited (Some 0%Z)).

Definition startScheduler : Eff unit :=
  tweets ← loadScheduledTweets;
  if (length tweets =? 0)%nat then
    simpleLogger.info
      (u16 "No scheduled tweets to run. Add some with: npm run schedule "
         ++ quote ++ u16 "text" ++ quote ++ u16 " " ++ quote ++ u16 "cron"
         ++ quote)
  else
    simpleLogger.info
      (u16 "Starting scheduler with " ++ dec (N.of_nat (length tweets))
         ++ u16 " scheduled tweet(s)...");;
    forEach schedule_entry tweets;;
    simpleLogger.plain
      (newline ++ [0xD83D; 0xDE80]
         ++ u16 " Scheduler is running! Press Ctrl+C to stop." ++ newline);;
    modify (λ w, set_sigint_handlers (S (sigint_handlers w)) w).

(** ** Events of the running process *)

(** A tick of node-cron on task [job]: only a live task fires.  Its
    callback runs up to the [await], where it is suspended. *)
Definition tick (job : nat) (w : World) : option World :=
  match timers w !! job with
  | Some j =>
      if running j then Some (run (callback_call (captured j)) w) else None
  | None => None
  end.

(** The promise of the post settles and the callback of task [job] resumes;
    the task may have been stopped in the meantime, its closure is still
    there. *)
Definition settle (job : nat) (outcome : PostOutcome) (now : js_string)
    (w : World) : option World :=
  match timers w !! job with
  | Some j => Some (run (callback_resume (captured j) job outcome now) w)
  | None => None
  end.

(** A firing during whose [await] no other code of the process runs. *)
Definition fire (job : nat) (outcome : PostOutcome) (now : js_string)
    (w : World) : option World :=
  w1 ← tick job w; settle job outcome now w1.

(** Delivery of SIGINT: without a handler the process dies by the signal. *)
Definition sigint (w : World) : option World :=
  match sigint_handlers w with
  | O => None
  | S _ => Some (run on_SIGINT w)
  end.

End Engine.

(** The entries whose expressions [cron.schedule] takes. *)
Definition schedulable (cron_schedule_error : js_string → option js_string)
    (tweets : list ScheduledPost) : Prop :=
  Forall (λ t, cron_schedule_error (cronExpression t) = None) tweets.

(** ** Several processes on one file *)

(** The command line runs each command in a process of its own: [timers],
    [activeJobs] and the console are per process, the file is shared.
    [fresh_process w] is a process started on the disk of [w];
    [sync_disk w' w] is process [w] seeing the disk as [w'] left it. *)
Definition fresh_process (w : World) : World :=
  mkWorld (file w) (write_failure w) (written w) [] ∅ 0 [] [] None.

Definition sync_disk (w' w : World) : World :=
  mkWorld (file w') (write_failure w') (written w') (timers w)
          (activeJobs w) (sigint_handlers w) (console w) (posted w)
          (exited w).

(** ** The recurrence validator *)

(** Modelled from the spec: [cron.validate] belongs to node-cron, which is
    not part of the repository.  The specification asks for the standard
    five-field syntax (minute, hour, day of month, month, day of week),
    each field a comma list of [*], single values, ranges [a-b] and steps
    [*/n], with the usual bounds of each field. *)
Fixpoint split_on (sep : N) (s : js_string) : list js_string :=
  match s with
  | [] => [[]]
  | c :: s' =>
      if c =? sep then [] :: split_on sep s'
      else match split_on sep s' with
           | [] => [[c]]
           | f :: fs => (c :: f) :: fs
           end
  end.

Definition digit (c : N) : option N :=
  if (0x30 <=? c) && (c <=? 0x39) then Some (c - 0x30) else None.

Fixpoint number_from (acc : N) (s : js_string) : option N :=
  match s with
  | [] => Some acc
  | c :: s' =>
      match digit c with
      | Some d => number_from (10 * acc + d) s'
      | None => None
      end
  end.

Definition number (s : js_string) : option N :=
  match s with
  | [] => None
  | _ => number_from 0 s
  end.

Definition in_bounds (lo hi : N) (s : js_string) : bool :=
  match number s with
  | Some n => (lo <=? n) && (n <=? hi)
  | None => false
  end.

Definition valid_item (lo hi : N) (s : js_string) : bool :=
  match s with
  | [0x2A] => true
  | 0x2A :: 0x2F :: n =>
      match number n with
      | Some k => 1 <=? k
      | None => false
      end
  | _ =>
      match split_on 0x2D s with
      | [v] => in_bounds lo hi v
      | [a; b] =>
          match number a, number b with
          | Some x, Some y => (lo <=? x) && (x <=? y) && (y <=? hi)
          | _, _ => false
          end
      | _ => false
      end
  end.

Definition valid_field (lo hi : N) (s : js_string) : bool :=
  forallb (valid_item lo hi) (split_on 0x2C s).

Definition isValidRecurrence (expression : js_string) : bool :=
  match split_on 0x20 expression with
  | [minute; hour; day; month; weekday] =>
      valid_field 0 59 minute && valid_field 0 23 hour
      && valid_field 1 31 day && valid_field 1 12 month
      && valid_field 0 7 weekday
  | _ => false
  end.

(** ** The X client *)

(** The module that exports [postTweet], the function the command line
    hands to [startScheduler].  Its logger and the [twitter-api-v2] client
    are outside the sources: the lines handed to the logger and the calls
    made on [rwClient.v2] are recorded, and what a call answers is given
    from outside. *)
Module XClient.

(** An error as the module looks at it: [error.code], [error.data.detail]
    and [error.message].  [new Error(message)] has neither code nor
    data. *)
Record ApiError : Type := mkApiError {
  code : option Z;
  detail : option js_string;
  message : js_string
}.

Definition new_Error (msg : js_string) : ApiError := mkApiError None None msg.

(** The methods of the logger the module calls. *)
Inductive LogLevel : Type := Info | Success | Tweet | Error.

Inductive ApiCall : Type :=
| TweetCall (text : js_string) (in_reply_to : option js_string)
| DeleteCall (tweetId : js_string)
| MeCall.

Record State : Type := mkState {
  log : list (LogLevel * js_string);
  calls : list ApiCall
}.

(** How the promise of a call settles: with the [id] (or [username]) of
    its [data], or with an error. *)
Inductive Reply : Type :=
| Resolved (data : js_string)
| Failed (e : ApiError).

(** How a function of the module ends. *)
Inductive Outcome (A : Type) : Type :=
| Returned (a : A)
| Thrown (e : ApiError).
Arguments Returned {A} a.
Arguments Thrown {A} e.

Definition logger (level : LogLevel) (msg : js_string) (s : State) : State :=
  mkState (log s ++ [(level, msg)]) (calls s).

Definition call (c : ApiCall) (s : State) : State :=
  mkState (log s) (calls s ++ [c]).

Definition handleApiError (error : ApiError) (s : State) : State :=
  if bool_decide (code error = Some 403%Z) then
    logger Error
      (u16 "Access forbidden. Check your app permissions (need Read and Write).")
      s
  else if bool_decide (code error = Some 401%Z) then
    logger Error (u16 "Unauthorized. Check your API credentials.") s
  else if bool_decide (code error = Some 429%Z) then
    logger Error
      (u16 "Rate limit exceeded. Please wait before trying again.") s
  else
    match detail error with
    | Some (c :: d) => logger Error (u16 "API Error: " ++ c :: d) s
    | _ => logger Error (u16 "Error: " ++ message error) s
    end.

(** The [catch] of every exported function: report, then rethrow. *)
Definition rethrow {A : Type} (error : ApiError) (s : State)
  : Outcome A * State :=
  (Thrown error, handleApiError error s).

Definition postTweet (reply : Reply) (text : js_string) (s : State)
  : Outcome js_string * State :=
  if bool_decide (text = []) || (length (trim text) =? 0)%nat then
    rethrow (new_Error (u16 "Tweet text cannot be empty")) s
  else if (280 <? length text)%nat then
    rethrow
      (new_Error (u16 "Tweet exceeds 280 characters ("
                    ++ dec (N.of_nat (length text)) ++ u16 " chars)")) s
  else
    let s := logger Info
               (u16 "Posting tweet (" ++ dec (N.of_nat (length text))
                  ++ u16 " chars)...") s in
    let s := call (TweetCall text None) s in
    match reply with
    | Resolved data_id =>
        let s := logger Success (u16 "Tweet posted successfully!") s in
        let s := logger Tweet (quote ++ text ++ quote) s in
        let s := logger Info (u16 "Tweet ID: " ++ data_id) s in
        let s := logger Info
                   (u16 "View at: https://x.com/i/web/status/" ++ data_id) s in
        (Returned data_id, s)
    | Failed error => rethrow error s
    end.

Definition postReply (reply : Reply) (text replyToId : js_string) (s : State)
  : Outcome js_string * State :=
  if bool_decide (text = []) || (length (trim text) =? 0)%nat then
    rethrow (new_Error (u16 "Tweet text cannot be empty")) s
  else
    let s := logger Info
               (u16 "Posting reply to tweet " ++ replyToId ++ u16 "...") s in
    let s := call (TweetCall text (Some replyToId)) s in
    match reply with
    | Resolved data_id =>
        let s := logger Success (u16 "Reply posted successfully!") s in
        let s := logger Info (u16 "Tweet ID: " ++ data_id) s in
        (Returned data_id, s)
    | Failed error => rethrow error s
    end.

Definition deleteTweet (reply : Reply) (tweetId : js_string) (s : State)
  : Outcome bool * State :=
  let s := logger Info (u16 "Deleting tweet " ++ tweetId ++ u16 "...") s in
  let s := call (DeleteCall tweetId) s in
  match reply with
  | Resolved _ =>
      (Returned true,
       logger Success
         (u16 "Tweet " ++ tweetId ++ u16 " deleted successfully!") s)
  | Failed error => rethrow error s
  end.

(** [getMe]; the [data] of the answer is reduced to its [username]. *)
Definition getMe (reply : Reply) (s : State) : Outcome js_string * State :=
  let s := call MeCall s in
  match reply with
  | Resolved username => (Returned username, s)
  | Failed error => rethrow error s
  end.

Definition verifyCredentials (reply : Reply) (s : State)
  : Outcome bool * State :=
  let s := logger Info (u16 "Verifying X API credentials...") s in
  match getMe reply s with
  | (Returned username, s) =>
      (Returned true, logger Success (u16 "Authenticated as @" ++ username) s)
  | (Thrown _, s) =>
      (Returned false, logger Error (u16 "Failed to verify credentials") s)
  end.

End XClient.

(** ** The credentials file of the server *)

(** The helpers of the Express server that read and write [.env]. *)
Module Server.

(** [s.startsWith(p)] *)
Fixpoint startsWith (p s : js_string) : bool :=
  match p, s with
  | [], _ => true
  | a :: p', b :: s' => (a =? b) && startsWith p' s'
  | _ :: _, [] => false
  end.

(** [parts.join(sep)] *)
Definition join (sep : js_string) (parts : list js_string) : js_string :=
  match parts with
  | [] => []
  | p :: ps => p ++ mjoin ((λ q, sep ++ q) <$> ps)
  end.

(** [value || ''] for a value that may be missing. *)
Definition or_empty (value : option js_string) : js_string :=
  match value with
  | Some v => v
  | None => []
  end.

(** One turn of the loop of [parseEnvFile].  An object keeps no own
    property for an assignment of a string to [__proto__]. *)
Definition parse_line (result : gmap js_string js_string) (line : js_string)
  : gmap js_string js_string :=
  let trimmed := trim line in
  if bool_decide (trimmed = []) || startsWith (u16 "#") trimmed then result
  else
    match split_on 0x3D trimmed with
    | [] => result
    | key :: valueParts =>
        if bool_decide (key = []) then result
        else if bool_decide (trim key = u16 "__proto__") then result
        else <[trim key := trim (join (u16 "=") valueParts)]> result
    end.

Definition parseEnvFile (content : js_string) : gmap js_string js_string :=
  foldl parse_line ∅ (split_on 0xA content).

(** The string [writeEnvFile] writes to [envPath]. *)
Definition env_lines (envObj : gmap js_string js_string) : list js_string :=
  [ u16 "# X (Twitter) API Credentials";
    u16 "X_API_KEY=" ++ or_empty (envObj !! u16 "X_API_KEY");
    u16 "X_API_SECRET=" ++ or_empty (envObj !! u16 "X_API_SECRET");
    u16 "X_ACCESS_TOKEN=" ++ or_empty (envObj !! u16 "X_ACCESS_TOKEN");
    u16 "X_ACCESS_TOKEN_SECRET="
      ++ or_empty (envObj !! u16 "X_ACCESS_TOKEN_SECRET");
    [];
    u16 "# LLM API Keys";
    u16 "GROQ_API_KEY=" ++ or_empty (envObj !! u16 "GROQ_API_KEY");
    u16 "GEMINI_API_KEY=" ++ or_empty (envObj !! u16 "GEMINI_API_KEY");
    u16 "MISTRAL_API_KEY=" ++ or_empty (envObj !! u16 "MISTRAL_API_KEY") ].

Definition writeEnvFile (envObj : gmap js_string js_string) : js_string :=
  join newline (env_lines envObj).

(** [loadEnv]; the file is [None] when it does not exist. *)
Definition loadEnv (envFile : option js_string) : gmap js_string js_string :=
  match envFile with
  | Some content => parseEnvFile content
  | None => ∅
  end.

(** [maskValue]; [None] is [undefined]. *)
Definition maskValue (value : option js_string) : js_string :=
  match value with
  | None => u16 "****"
  | Some v =>
      if bool_decide (v = []) || (length v <? 12)%nat then u16 "****"
      else take 4 v ++ u16 "****" ++ drop (length v - 4) v
  end.

(** The fields [POST /api/credentials] reads from the body of the request;
    [None] is a field that is missing. *)
Record Credentials : Type := mkCredentials {
  xApiKey : option js_string;
  xApiSecret : option js_string;
  xAccessToken : option js_string;
  xAccessTokenSecret : option js_string;
  groqApiKey : option js_string;
  geminiApiKey : option js_string;
  mistralApiKey : option js_string
}.

(** [if (field) env.KEY = field] *)
Definition assign_if (field : option js_string) (key : js_string)
    (env : gmap js_string js_string) : gmap js_string js_string :=
  match field with
  | Some (c :: v) => <[key := c :: v]> env
  | _ => env
  end.

(** The assignments of the handler of [POST /api/credentials] to the
    environment it has loaded. *)
Definition merge_credentials (body : Credentials)
    (env : gmap js_string js_string) : gmap js_string js_string :=
  let env := assign_if (xApiKey body) (u16 "X_API_KEY") env in
  let env := assign_if (xApiSecret body) (u16 "X_API_SECRET") env in
  let env := assign_if (xAccessToken body) (u16 "X_ACCESS_TOKEN") env in
  let env :=
    assign_if (xAccessTokenSecret body) (u16 "X_ACCESS_TOKEN_SECRET") env in
  let env := assign_if (groqApiKey body) (u16 "GROQ_API_KEY") env in
  let env := assign_if (geminiApiKey body) (u16 "GEMINI_API_KEY") env in
  assign_if (mistralApiKey body) (u16 "MISTRAL_API_KEY") env.

(** The handler of [POST /api/credentials], as far as the file goes: the
    new content of [.env] for a body and the old file.  What the handler
    does to [process.env] is left out. *)
Definition post_credentials (body : Credentials) (envFile : option js_string)
  : js_string :=
  writeEnvFile (merge_credentials body (loadEnv envFile)).

(** The variables [writeEnvFile] knows, and the field of the body that
    goes with each. *)
Definition known_keys : list js_string :=
  [ u16 "X_API_KEY"; u16 "X_API_SECRET"; u16 "X_ACCESS_TOKEN";
    u16 "X_ACCESS_TOKEN_SECRET"; u16 "GROQ_API_KEY"; u16 "GEMINI_API_KEY";
    u16 "MISTRAL_API_KEY" ].

Definition credential_fields
  : list ((Credentials → option js_string) * js_string) :=
  [ (xApiKey, u16 "X_API_KEY"); (xApiSecret, u16 "X_API_SECRET");
    (xAccessToken, u16 "X_ACCESS_TOKEN");
    (xAccessTokenSecret, u16 "X_ACCESS_TOKEN_SECRET");
    (groqApiKey, u16 "GROQ_API_KEY"); (geminiApiKey, u16 "GEMINI_API_KEY");
    (mistralApiKey, u16 "MISTRAL_API_KEY") ].

End Server.

(** ** The cleaning of generated text *)

(** [cleanTweet] of the LLM client. *)
Module LlmClient.

Definition is_quote (c : N) : bool := (c =? 0x22) || (c =? 0x27).

(** [s.replace(/^["']|["']$/g, '')]: one quote at the start and one at the
    end, where there is one. *)
Definition strip_quotes (s : js_string) : js_string :=
  let s1 := match s with
            | c :: s' => if is_quote c then s' else s
            | [] => []
            end in
  match last s1 with
  | Some c => if is_quote c then take (length s1 - 1) s1 else s1
  | None => s1
  end.

(** [cleanTweet]; [None] is [null] or [undefined]. *)
Definition cleanTweet (tweet : option js_string) : option js_string :=
  match tweet with
  | None | Some [] => None
  | Some t =>
      let cleanTweet := strip_quotes (trim t) in
      Some (if (500 <? length cleanTweet)%nat
            then take 497 cleanTweet ++ u16 "..."
            else cleanTweet)
  end.

End LlmClient.

(** ** The media of the composer *)

(** The media part of the composer store of the web interface. *)
Module Composer.

Inductive MediaType : Type := image | video.

(** A [File] of the browser; the store reads its [type] only. *)
Record File : Type := mkFile {
  file_name : js_string;
  file_type : js_string
}.

Record MediaFile : Type := mkMediaFile {
  id : js_string;
  file : File;
  preview : js_string;
  type : MediaType;
  uploading : bool;
  mediaId : option js_string;
  error : option js_string
}.

(** A file handed to [addMedia], with what the host answers while its
    entry is made: [Date.now()], [Math.random().toString(36)] and
    [URL.createObjectURL(file)]. *)
Record Picked : Type := mkPicked {
  picked : File;
  Date_now : N;
  Math_random_36 : js_string;
  objectURL : js_string
}.

Definition newMedia (p : Picked) : MediaFile :=
  {| id := dec (Date_now p) ++ u16 "-" ++ take 9 (drop 2 (Math_random_36 p));
     file := picked p;
     preview := objectURL p;
     type := if Server.startsWith (u16 "video/") (file_type (picked p))
             then video else image;
     uploading := false;
     mediaId := None;
     error := None |}.

Definition is_video (m : MediaFile) : bool :=
  match type m with
  | video => true
  | image => false
  end.

(** [addMedia], on the [mediaFiles] of the state. *)
Definition addMedia (files : list Picked) (mediaFiles : list MediaFile)
  : list MediaFile :=
  let newMedia := newMedia <$> files in
  let isVideo := existsb is_video newMedia in
  let maxFiles := if isVideo then 1%nat else 4%nat in
  take maxFiles (mediaFiles ++ newMedia).

End Composer.

(** ** A sample schedule *)

(** Entries and worlds the statements below are tried on: a recurring entry
    that has never fired, a one-shot entry, and a recurring entry that has
    fired three times already; a process on a disk holding given entries,
    and the daemon started on it. *)
Definition sample_env : Env :=
  mkEnv 1700000000000 (u16 "0.4fzyo82mvyr") (u16 "2023-11-14T22:13:20.000Z").

Definition morning : ScheduledPost :=
  mkPost (u16 "tweet_1699990000000_k3x9q0a1b") (u16 "Good morning")
         (u16 "0 9 * * *") false (u16 "2023-11-14T19:26:40.000Z")
         None (Some 0%Z).

Definition launch : ScheduledPost :=
  mkPost (u16 "tweet_1699990000500_z81hd02mq") (u16 "We are live")
         (u16 "30 18 1 12 *") true (u16 "2023-11-14T19:26:40.500Z")
         None (Some 0%Z).

Definition digest : ScheduledPost :=
  mkPost (u16 "tweet_1699000000000_a7c2m4p9x") (u16 "Weekly digest")
         (u16 "0 12 * * 1") false (u16 "2023-11-03T08:26:40.000Z")
         (Some (u16 "2023-11-13T12:00:00.120Z")) (Some 3%Z).

Definition disk_with (tweets : list ScheduledPost) : World :=
  mkWorld (Document (Some tweets)) None [] [] ∅ 0 [] [] None.

(** For the samples [cron.schedule] throws on exactly the expressions
    [isValidRecurrence] turns down. *)
Definition sample_schedule_error (expression : js_string)
  : option js_string :=
  if isValidRecurrence expression then None
  else Some (expression ++ u16 " is a invalid expression").

(** An entry whose expression was changed by hand in the file. *)
Definition edited : ScheduledPost :=
  mkPost (u16 "tweet_1699990000900_m2k8s5d7f") (u16 "Lunch time")
         (u16 "every day") false (u16 "2023-11-14T19:26:40.900Z")
         None (Some 0%Z).

Definition daemon_on (tweets : list ScheduledPost) : World :=
  run (startScheduler sample_schedule_error) (disk_with tweets).

(** The daemon runs on [morning]; a second process, the command line,
    removes that entry; the daemon then sees the disk the command left. *)
Definition cli_remove_morning : World :=
  run (removeScheduledTweet (id morning)) (fresh_process (daemon_on [morning])).

Definition daemon_after_cli_remove : World :=
  sync_disk cli_remove_morning (daemon_on [morning]).

(** The daemon runs on [morning]; the same process then schedules a
    one-shot post. *)
Definition daemon_after_add : World :=
  run (scheduleTweet isValidRecurrence sample_env (u16 "We are live")
         (u16 "30 18 1 12 *") true)
      (daemon_on [morning]).

(** A text of 281 code units: one letter and 280 spaces. *)
Definition padded_text : js_string := u16 "a" ++ replicate 280 0x20.

(** A disk that holds given entries and refuses every write, and the
    daemon started on it. *)
Definition read_only_disk (tweets : list ScheduledPost) : World :=
  mkWorld (Document (Some tweets))
          (Some (u16 "EROFS: read-only file system, open scheduled-tweets.json"))
          [] [] ∅ 0 [] [] None.

Definition daemon_on_read_only (tweets : list ScheduledPost) : World :=
  run (startScheduler sample_schedule_error) (read_only_disk tweets).

(** The next reading of the clock, with the same random string. *)
Definition later_env : Env :=
  mkEnv 1700000000001 (u16 "0.4fzyo82mvyr") (u16 "2023-11-14T22:13:20.001Z").

(** An answer of the API that turns a request down, and a client that
    has not done anything yet. *)
Definition rate_limited : XClient.ApiError :=
  XClient.mkApiError (Some 429%Z) None
    (u16 "Request failed with code 429").

Definition idle_client : XClient.State := XClient.mkState [] [].

(** A credentials file with a variable the server does not know, and a
    request that gives two keys, one field empty and the others not at
    all. *)
Definition sample_env_file : js_string :=
  Server.join newline
    [ u16 "# X (Twitter) API Credentials";
      u16 "X_API_KEY=k1A9x7Qm2Zp0Lw4T";
      u16 "X_API_SECRET = s3cr3t==";
      u16 "NODE_ENV=production" ].

Definition sample_body : Server.Credentials :=
  Server.mkCredentials (Some (u16 "n3wK3y")) None (Some []) None
                       (Some (u16 "gsk_42")) None None.

(** An image and a video picked in the browser. *)
Definition photo : Composer.Picked :=
  Composer.mkPicked (Composer.mkFile (u16 "cat.png") (u16 "image/png"))
                    1700000000000 (u16 "0.4fzyo82mvyr") (u16 "blob:1").

Definition clip : Composer.Picked :=
  Composer.mkPicked (Composer.mkFile (u16 "cat.mp4") (u16 "video/mp4"))
                    1700000000500 (u16 "0.9k2c71xq0ab") (u16 "blob:2").

(** * Properties *)

(** ** The store *)

Lemma loadScheduledTweets_result (w : World) :
  result loadScheduledTweets w = Normal (stored w).
Proof.
  unfold result, loadScheduledTweets, stored.
  destruct w as [f ? ? ? ? ? ? ? ?]; destruct f as [|m|[l|]]; reflexivity.
Qed.

(** Loading changes nothing but the console. *)
Lemma loadScheduledTweets_world (w : World) :
  let w' := run loadScheduledTweets w in
  file w' = file w ∧ write_failure w' = write_failure w
  ∧ written w' = written w ∧ timers w' = timers w
  ∧ activeJobs w' = activeJobs w ∧ posted w' = posted w
  ∧ exited w' = exited w ∧ sigint_handlers w' = sigint_handlers w.
Proof.
  unfold run, loadScheduledTweets.
  destruct w as [f ? ? ? ? ? ? ? ?]; destruct f as [|m|[l|]]; simpl; tauto.
Qed.

Lemma loadScheduledTweets_eq (w : World) :
  loadScheduledTweets w = (Normal (stored w), run loadScheduledTweets w).
Proof.
  rewrite <- loadScheduledTweets_result. unfold result, run.
  destruct (loadScheduledTweets w); reflexivity.
Qed.

Lemma stored_load (w : World) : stored (run loadScheduledTweets w) = stored w.
Proof.
  unfold stored. destruct (loadScheduledTweets_world w) as [-> _]. reflexivity.
Qed.

Lemma saveScheduledTweets_ok (tweets : list ScheduledPost) (w : World) :
  write_failure w = None →
  saveScheduledTweets tweets w =
    (Normal tt, set_written (written w ++ [tweets])
                  (set_file (Document (Some tweets)) w)).
Proof.
  intros Hw. unfold saveScheduledTweets, mbind, Eff_bind, get. simpl.
  rewrite Hw. reflexivity.
Qed.

(** [listScheduledTweets] returns what [loadScheduledTweets] returns. *)
Lemma print_entries_normal (toLocaleString : js_string → js_string)
    (tweets : list ScheduledPost) :
  ∀ index w, result (print_entries toLocaleString index tweets) w = Normal tt.
Proof.
  induction tweets as [|t tweets IH]; intros index w; [reflexivity|].
  unfold result in *. simpl.
  unfold mbind, Eff_bind.
  destruct (print_entry toLocaleString index t w) as [[[]|e] w1] eqn:E.
  - apply IH.
  - exfalso. revert E. unfold print_entry.
    destruct (lastPosted t) as [[|c s]|]; discriminate.
Qed.

Lemma listScheduledTweets_result (toLocaleString : js_string → js_string)
    (w : World) :
  result (listScheduledTweets toLocaleString) w = Normal (stored w).
Proof.
  unfold result, listScheduledTweets, mbind at 1, Eff_bind at 1.
  rewrite loadScheduledTweets_eq.
  destruct (length (stored w) =? 0)%nat; [reflexivity|].
  unfold simpleLogger.plain, console_log, modify, mbind, Eff_bind. simpl.
  match goal with
  | |- context [print_entries ?f ?i ?l ?w0] =>
      pose proof (print_entries_normal f l i w0) as H;
      unfold result in H;
      destruct (print_entries f i l w0) as [c w1]
  end.
  simpl in H. subst c. reflexivity.
Qed.

(** ** Trimming *)

Lemma trimStart_length (s : js_string) : (length (trimStart s) ≤ length s)%nat.
Proof.
  induction s as [|c s IH]; simpl; [lia|].
  destruct (is_white_space c); simpl; lia.
Qed.

Lemma trim_length (s : js_string) : (length (trim s) ≤ length s)%nat.
Proof.
  unfold trim, trimEnd. rewrite length_rev.
  etransitivity; [apply trimStart_length|]. rewrite length_rev.
  apply trimStart_length.
Qed.

Lemma trim_nil_iff (s : js_string) :
  bool_decide (s = []) || (length (trim s) =? 0)%nat = true ↔ trim s = [].
Proof.
  split.
  - intros H. apply orb_true_iff in H as [H|H].
    + apply bool_decide_eq_true in H. subst. reflexivity.
    + apply Nat.eqb_eq in H. destruct (trim s); [reflexivity|discriminate].
  - intros ->. apply orb_true_iff. right. reflexivity.
Qed.

Lemma trim_not_nil (s : js_string) :
  trim s ≠ [] → bool_decide (s = []) || (length (trim s) =? 0)%nat = false.
Proof.
  intros H. destruct (_ || _) eqn:E; [|reflexivity].
  apply trim_nil_iff in E. contradiction.
Qed.

(** ** Adding an entry *)

Section AddSchedule.

Variable cron_validate : js_string → bool.

(** What an accepted call does to the world: the document is the loaded
    collection with the new entry appended, and only the console changes
    besides. *)
Lemma scheduleTweet_accepted (env : Env) (text cron : js_string)
    (oneTime : bool) (w : World) :
  cron_validate cron = true →
  trim text ≠ [] →
  (length text ≤ 280)%nat →
  write_failure w = None →
  let e := mkPost (generateId env) (trim text) cron oneTime (toISOString env)
                  None (Some 0%Z) in
  ∃ c, scheduleTweet cron_validate env text cron oneTime w =
         (Normal e,
          mkWorld (Document (Some (stored w ++ [e]))) None
                  (written w ++ [stored w ++ [e]]) (timers w) (activeJobs w)
                  (sigint_handlers w) c (posted w) (exited w)).
Proof.
  intros Hc Ht Hl Hw e. unfold scheduleTweet.
  rewrite Hc, (trim_not_nil _ Ht). cbn [negb].
  destruct (280 <? length text)%nat eqn:E; [apply Nat.ltb_lt in E; lia|].
  unfold mbind at 1, Eff_bind at 1. rewrite loadScheduledTweets_eq.
  destruct (loadScheduledTweets_world w) as (Hf & Hwf & Hwr & Hts & Haj & Hp & Hx & Hs).
  unfold mbind at 1, Eff_bind at 1.
  rewrite saveScheduledTweets_ok by congruence.
  destruct (run loadScheduledTweets w) as [f' wf' wr' ts' aj' sh' c' p' x'].
  simpl in *. subst. rewrite Hw.
  eexists. reflexivity.
Qed.

(** A rejected call leaves the world as it was, console included. *)
Lemma scheduleTweet_throws_unchanged (env : Env) (text cron : js_string)
    (oneTime : bool) (w : World) (message : js_string) :
  result (scheduleTweet cron_validate env text cron oneTime) w = Throw message →
  scheduleTweet cron_validate env text cron oneTime w = (Throw message, w).
Proof.
  unfold result, scheduleTweet.
  destruct (negb (cron_validate cron)); [unfold throw; cbn [fst]; intros H; rewrite H; reflexivity|].
  destruct (bool_decide (text = []) || (length (trim text) =? 0)%nat);
    [unfold throw; cbn [fst]; intros H; rewrite H; reflexivity|].
  destruct (280 <? length text)%nat; [unfold throw; cbn [fst]; intros H; rewrite H; reflexivity|].
  unfold mbind at 1, Eff_bind at 1. rewrite loadScheduledTweets_eq.
  unfold mbind at 1, Eff_bind at 1.
  destruct (saveScheduledTweets _ _) as [[[]|m] w1] eqn:E.
  - simpl. discriminate.
  - exfalso. revert E. unfold saveScheduledTweets, mbind, Eff_bind, get.
    simpl. destruct (write_failure _); discriminate.
Qed.

End AddSchedule.

(** ** Claims about [scheduleTweet] *)

Section AddScheduleClaims.

Variable cron_validate : js_string → bool.

(** C6.  For every text that is non-empty after trimming and at most 280
    code units long, and every expression [cron.validate] accepts,
    [scheduleTweet] returns normally (the disk being writable); the entity
    it returns has [lastPosted] null and [postCount] 0, and a [load] after
    the call returns the stored collection with that very entity, field for
    field, appended. *)
Theorem scheduleTweet_valid_roundtrip (env : Env) (text cron : js_string)
    (oneTime : bool) (w : World) :
  trim text ≠ [] →
  (length text ≤ 280)%nat →
  cron_validate cron = true →
  write_failure w = None →
  ∃ e, result (scheduleTweet cron_validate env text cron oneTime) w = Normal e
     ∧ e = mkPost (generateId env) (trim text) cron oneTime (toISOString env)
                  None (Some 0%Z)
     ∧ lastPosted e = None ∧ postCount e = Some 0%Z
     ∧ let w' := run (scheduleTweet cron_validate env text cron oneTime) w in
       result loadScheduledTweets w' = Normal (stored w ++ [e])
       ∧ last (stored w') = Some e
       ∧ written w' = written w ++ [stored w ++ [e]].
Proof.
  intros Ht Hl Hc Hw.
  destruct (scheduleTweet_accepted cron_validate env text cron oneTime w
              Hc Ht Hl Hw) as [c E].
  eexists. unfold result, run. rewrite E. simpl.
  repeat split; try reflexivity.
  apply last_snoc.
Qed.

(** C7.  For every text that is empty after trimming or at least 281 code
    units long, [scheduleTweet] throws — whatever the expression — and the
    world is exactly as before: nothing is written and [load] returns what
    it returned before.  When the expression is valid the error is the one
    of the text check that failed. *)
Theorem scheduleTweet_rejects_text (env : Env) (text cron : js_string)
    (oneTime : bool) (w : World) :
  trim text = [] ∨ (281 ≤ length text)%nat →
  ∃ message,
    scheduleTweet cron_validate env text cron oneTime w = (Throw message, w)
    ∧ (cron_validate cron = true →
       message =
         if bool_decide (trim text = [])
         then u16 "Tweet text cannot be empty"
         else u16 "Tweet exceeds 280 characters ("
                ++ dec (N.of_nat (length text)) ++ u16 " chars)")
    ∧ written (run (scheduleTweet cron_validate env text cron oneTime) w)
      = written w
    ∧ result loadScheduledTweets
        (run (scheduleTweet cron_validate env text cron oneTime) w)
      = result loadScheduledTweets w.
Proof.
  intros H.
  assert (∃ message,
    scheduleTweet cron_validate env text cron oneTime w = (Throw message, w)
    ∧ (cron_validate cron = true →
       message =
         if bool_decide (trim text = [])
         then u16 "Tweet text cannot be empty"
         else u16 "Tweet exceeds 280 characters ("
                ++ dec (N.of_nat (length text)) ++ u16 " chars)"))
    as (message & E & Hm).
  { unfold scheduleTweet.
    destruct (cron_validate cron) eqn:Hc; cbn [negb].
    2:{ eexists. split; [reflexivity|discriminate]. }
    destruct (bool_decide (text = []) || (length (trim text) =? 0)%nat) eqn:Ht.
    - apply trim_nil_iff in Ht. eexists. split; [reflexivity|].
      intros _. rewrite bool_decide_eq_true_2; done.
    - destruct H as [H|H].
      + apply trim_nil_iff in H. congruence.
      + destruct (280 <? length text)%nat eqn:E;
          [|apply Nat.ltb_ge in E; lia].
        eexists. split; [reflexivity|]. intros _.
        rewrite bool_decide_eq_false_2; [reflexivity|].
        intros Hn. apply trim_nil_iff in Hn. congruence. }
  exists message. unfold run. rewrite E. simpl. auto.
Qed.

(** C8.  For every expression [cron.validate] rejects, [scheduleTweet]
    throws an error whose message quotes the expression, and the world is
    exactly as before: nothing is written, the expression reaches no
    document, and [load] returns what it returned before. *)
Theorem scheduleTweet_rejects_cron (env : Env) (text cron : js_string)
    (oneTime : bool) (w : World) :
  cron_validate cron = false →
  scheduleTweet cron_validate env text cron oneTime w
    = (Throw (u16 "Invalid cron expression: " ++ cron), w)
  ∧ written (run (scheduleTweet cron_validate env text cron oneTime) w)
    = written w
  ∧ result loadScheduledTweets
      (run (scheduleTweet cron_validate env text cron oneTime) w)
    = result loadScheduledTweets w.
Proof.
  intros Hc. unfold run, scheduleTweet. rewrite Hc. cbn [negb].
  unfold throw. simpl. auto.
Qed.

(** C10.  Whenever [scheduleTweet] accepts an input, the entity it returns
    (and, the disk being writable, persists) carries the trimmed text,
    while the input itself, untrimmed, is at most 280 code units long.
    The length check looks at the untrimmed text: there is a text longer
    than 280 code units whose trimmed form is non-empty and within the
    limit, and which is rejected as too long. *)
Theorem scheduleTweet_trims_after_length_check (env : Env)
    (input cron : js_string) (oneTime : bool) (w : World) (e : ScheduledPost) :
  result (scheduleTweet cron_validate env input cron oneTime) w = Normal e →
  text e = trim input
  ∧ (length input ≤ 280)%nat
  ∧ (write_failure w = None →
     last (stored (run (scheduleTweet cron_validate env input cron oneTime) w))
     = Some e)
  ∧ ∃ padded : js_string,
      (280 < length padded)%nat
      ∧ (0 < length (trim padded) ≤ 280)%nat
      ∧ ∀ env' oneTime' w',
          scheduleTweet cron_validate env' padded cron oneTime' w'
          = (Throw (u16 "Tweet exceeds 280 characters ("
                      ++ dec (N.of_nat (length padded)) ++ u16 " chars)"), w').
Proof.
  intros H.
  assert (cron_validate cron = true ∧ trim input ≠ [] ∧ (length input ≤ 280)%nat)
    as (Hc & Ht & Hl).
  { revert H. unfold result, scheduleTweet.
    destruct (cron_validate cron); cbn [negb]; [|discriminate].
    destruct (bool_decide (input = []) || (length (trim input) =? 0)%nat) eqn:Ht;
      [discriminate|].
    destruct (280 <? length input)%nat eqn:E; [discriminate|].
    intros _. apply Nat.ltb_ge in E. repeat split; [|lia].
    intros Hn. apply trim_nil_iff in Hn. congruence. }
  assert (e = mkPost (generateId env) (trim input) cron oneTime
                     (toISOString env) None (Some 0%Z)) as He.
  { revert H. unfold result, scheduleTweet. rewrite Hc, (trim_not_nil _ Ht).
    cbn [negb].
    destruct (280 <? length input)%nat eqn:E; [apply Nat.ltb_lt in E; lia|].
    unfold mbind at 1, Eff_bind at 1. rewrite loadScheduledTweets_eq.
    unfold mbind at 1, Eff_bind at 1.
    destruct (saveScheduledTweets _ _) as [[[]|m] w1]; [|discriminate].
    simpl. congruence. }
  split; [subst e; reflexivity|]. split; [exact Hl|]. split.
  - intros Hw.
    destruct (scheduleTweet_accepted cron_validate env input cron oneTime w
                Hc Ht Hl Hw) as [c E].
    unfold run. rewrite E. simpl. rewrite He. apply last_snoc.
  - exists (u16 "a" ++ replicate 280 0x20).
    split; [vm_compute; lia|]. split; [vm_compute; lia|].
    intros env' oneTime' w'. unfold scheduleTweet. rewrite Hc. cbn [negb].
    reflexivity.
Qed.

End AddScheduleClaims.

(** ** Looking an entry up by id *)

Lemma findIndex_Some (key : js_string) (l : list ScheduledPost) (i : nat)
    (e : ScheduledPost) :
  findIndex key l = Some (i, e) → l !! i = Some e ∧ id e = key.
Proof.
  unfold findIndex. intros H. apply list_find_Some in H. tauto.
Qed.

Lemma findIndex_None (key : js_string) (l : list ScheduledPost) :
  findIndex key l = None ↔ ∀ t, t ∈ l → id t ≠ key.
Proof.
  unfold findIndex. rewrite list_find_None, Forall_forall. reflexivity.
Qed.

Lemma findIndex_cons (key : js_string) (x : ScheduledPost)
    (l : list ScheduledPost) :
  findIndex key (x :: l) =
    if decide (id x = key) then Some (0%nat, x)
    else prod_map S (λ t, t) <$> findIndex key l.
Proof. reflexivity. Qed.

(** An assignment to fields other than [id] does not move the entry. *)
Lemma findIndex_alter (f : ScheduledPost → ScheduledPost) (key : js_string)
    (l : list ScheduledPost) :
  (∀ t, id (f t) = id t) →
  ∀ i e, findIndex key l = Some (i, e) →
         findIndex key (alter f i l) = Some (i, f e).
Proof.
  intros Hf. induction l as [|x l IH]; intros i e; [discriminate|].
  rewrite findIndex_cons. destruct (decide (id x = key)) as [Hx|Hx].
  - intros [= <- <-]. change (alter f 0%nat (x :: l)) with (f x :: l).
    rewrite findIndex_cons, Hf.
    rewrite decide_True by exact Hx. reflexivity.
  - destruct (findIndex key l) as [[i' e']|] eqn:E; [|discriminate].
    intros [= <- <-].
    change (alter f (S i') (x :: l)) with (x :: alter f i' l).
    rewrite findIndex_cons.
    rewrite decide_False by exact Hx. rewrite (IH _ _ eq_refl). reflexivity.
Qed.

(** With ids that are unique, [splice] at the index found leaves no entry
    of that id. *)
Lemma findIndex_delete (key : js_string) (l : list ScheduledPost) :
  NoDup (id <$> l) →
  ∀ i e, findIndex key l = Some (i, e) → findIndex key (delete i l) = None.
Proof.
  induction l as [|x l IH]; intros Hnd i e; [discriminate|].
  rewrite findIndex_cons. rewrite fmap_cons in Hnd.
  apply NoDup_cons in Hnd as [Hx Hnd].
  destruct (decide (id x = key)) as [Hk|Hk].
  - intros [= <- <-]. change (delete 0%nat (x :: l)) with l.
    apply findIndex_None. intros t Ht Hid.
    apply Hx. rewrite Hk, <- Hid. apply list_elem_of_fmap. eauto.
  - destruct (findIndex key l) as [[i' e']|] eqn:E; [|discriminate].
    intros [= <- <-].
    change (delete (S i') (x :: l)) with (x :: delete i' l).
    rewrite findIndex_cons.
    rewrite decide_False by exact Hk. rewrite (IH Hnd _ _ eq_refl).
    reflexivity.
Qed.

Lemma delete_alter (f : ScheduledPost → ScheduledPost)
    (l : list ScheduledPost) :
  ∀ i, delete i (alter f i l) = delete i l.
Proof.
  induction l as [|x l IH]; intros [|i]; simpl; try reflexivity.
  rewrite IH. reflexivity.
Qed.

Lemma mark_posted_id (now : js_string) (t : ScheduledPost) :
  id (mark_posted now t) = id t.
Proof. reflexivity. Qed.

(** ** The firing routine *)

Lemma stop_job_not_running (job : nat) (ts : list Job) (j : Job) :
  stop_job job ts !! job = Some j → running j = false.
Proof.
  unfold stop_job. rewrite list_lookup_alter_eq.
  destruct (ts !! job); simpl; [|discriminate]. intros [= <-]. reflexivity.
Qed.

(** Up to the [await] the callback reads nothing but its closure: it logs
    and calls [postTweetFn] with the captured text. *)
Lemma callback_call_eq (tweet : ScheduledPost) (w : World) :
  callback_call tweet w =
    (Normal tt,
     set_posted (posted w ++ [text tweet])
       (set_console
          (console w ++
             [(Stdout, [0xD83D; 0xDCC5; 0x20]
                         ++ u16 "Executing scheduled tweet: " ++ id tweet)])
          w)).
Proof. reflexivity. Qed.

(** A rejected post: one more line on the console, nothing else. *)
Lemma callback_rejected (tweet : ScheduledPost) (job : nat)
    (message now : js_string) (w : World) :
  callback tweet job (Rejected message) now w =
    (Normal tt,
     mkWorld (file w) (write_failure w) (written w) (timers w) (activeJobs w)
       (sigint_handlers w)
       (console w ++
          [(Stdout, [0xD83D; 0xDCC5; 0x20]
                      ++ u16 "Executing scheduled tweet: " ++ id tweet);
           (Stderr, [0x2717; 0x20]
                      ++ u16 "Failed to post scheduled tweet " ++ id tweet
                      ++ u16 ": " ++ message)])
       (posted w ++ [text tweet]) (exited w)).
Proof.
  unfold callback, mbind, Eff_bind. rewrite callback_call_eq.
  unfold callback_resume, simpleLogger.error, console_error, modify,
    set_console, set_posted. simpl.
  rewrite <- app_assoc. reflexivity.
Qed.

(** A fulfilled post whose entry is no longer stored: the update is
    skipped. *)
Lemma callback_fulfilled_absent (tweet : ScheduledPost) (job : nat)
    (now : js_string) (w : World) :
  findIndex (id tweet) (stored w) = None →
  ∃ c, callback tweet job Fulfilled now w =
         (Normal tt,
          mkWorld (file w) (write_failure w) (written w) (timers w)
            (activeJobs w) (sigint_handlers w) c
            (posted w ++ [text tweet]) (exited w)).
Proof.
  intros Hf. unfold callback, mbind at 1, Eff_bind at 1.
  rewrite callback_call_eq. unfold callback_resume.
  unfold mbind at 1, Eff_bind at 1. rewrite loadScheduledTweets_eq.
  match goal with |- context [run loadScheduledTweets ?w0] =>
    destruct (loadScheduledTweets_world w0)
      as (Hfl & Hwf & Hwr & Hts & Haj & Hp & Hx & Hs);
    change (stored w0) with (stored w);
    destruct (run loadScheduledTweets w0) as [f' wf' wr' ts' aj' sh' c' p' x']
  end.
  rewrite Hf. simpl in *. subst. eexists. reflexivity.
Qed.

(** A fulfilled post whose entry is still stored, on a writable disk. *)
Lemma callback_fulfilled_present (tweet : ScheduledPost) (job : nat)
    (now : js_string) (w : World) (i : nat) (e : ScheduledPost) :
  findIndex (id tweet) (stored w) = Some (i, e) →
  write_failure w = None →
  let updated := alter (mark_posted now) i (stored w) in
  ∃ c, callback tweet job Fulfilled now w =
         (Normal tt,
          if oneTime tweet then
            mkWorld (Document (Some (delete i (stored w)))) None
              (written w ++ [delete i (stored w)])
              (stop_job job (timers w)) (delete (id tweet) (activeJobs w))
              (sigint_handlers w) c (posted w ++ [text tweet]) (exited w)
          else
            mkWorld (Document (Some updated)) None (written w ++ [updated])
              (timers w) (activeJobs w) (sigint_handlers w) c
              (posted w ++ [text tweet]) (exited w)).
Proof.
  intros Hf Hw updated. unfold callback, mbind at 1, Eff_bind at 1.
  rewrite callback_call_eq. unfold callback_resume.
  unfold mbind at 1, Eff_bind at 1. rewrite loadScheduledTweets_eq.
  match goal with |- context [run loadScheduledTweets ?w0] =>
    destruct (loadScheduledTweets_world w0)
      as (Hfl & Hwf & Hwr & Hts & Haj & Hp & Hx & Hs);
    change (stored w0) with (stored w);
    destruct (run loadScheduledTweets w0) as [f' wf' wr' ts' aj' sh' c' p' x']
  end.
  rewrite Hf. simpl in *. subst wf' wr' ts' aj' p' x' sh'.
  destruct (oneTime tweet).
  - unfold mbind, Eff_bind, saveScheduledTweets, get. simpl. rewrite Hw.
    rewrite delete_alter. simpl. eexists. reflexivity.
  - unfold mbind, Eff_bind, saveScheduledTweets, get. simpl. rewrite Hw.
    simpl. eexists. reflexivity.
Qed.

(** ** Removing an entry *)

Lemma removeScheduledTweet_absent (key : js_string) (w : World) :
  findIndex key (stored w) = None →
  ∃ c, removeScheduledTweet key w =
         (Normal false,
          mkWorld (file w) (write_failure w) (written w) (timers w)
            (activeJobs w) (sigint_handlers w) c (posted w) (exited w)).
Proof.
  intros Hf. unfold removeScheduledTweet, mbind at 1, Eff_bind at 1.
  rewrite loadScheduledTweets_eq, Hf.
  destruct (loadScheduledTweets_world w)
    as (Hfl & Hwf & Hwr & Hts & Haj & Hp & Hx & Hs).
  destruct (run loadScheduledTweets w) as [f' wf' wr' ts' aj' sh' c' p' x'].
  simpl in *. subst. eexists. reflexivity.
Qed.

Lemma removeScheduledTweet_present (key : js_string) (w : World) (i : nat)
    (e : ScheduledPost) :
  findIndex key (stored w) = Some (i, e) →
  write_failure w = None →
  ∃ c, removeScheduledTweet key w =
         (Normal true,
          mkWorld (Document (Some (delete i (stored w)))) None
            (written w ++ [delete i (stored w)])
            (match activeJobs w !! key with
             | Some job => stop_job job (timers w)
             | None => timers w
             end)
            (delete key (activeJobs w))
            (sigint_handlers w) c (posted w) (exited w)).
Proof.
  intros Hf Hw. unfold removeScheduledTweet, mbind at 1, Eff_bind at 1.
  rewrite loadScheduledTweets_eq, Hf.
  destruct (loadScheduledTweets_world w)
    as (Hfl & Hwf & Hwr & Hts & Haj & Hp & Hx & Hs).
  destruct (run loadScheduledTweets w) as [f' wf' wr' ts' aj' sh' c' p' x'].
  simpl in *. subst.
  unfold mbind, Eff_bind, saveScheduledTweets, get. simpl. rewrite Hw. simpl.
  destruct (activeJobs w !! key) as [job|] eqn:Ej; simpl.
  - eexists. reflexivity.
  - rewrite delete_id by exact Ej. eexists. reflexivity.
Qed.

(** ** Starting the daemon *)

Section Starting.

Variable cron_schedule_error : js_string → option js_string.

Lemma schedule_entry_eq (tweet : ScheduledPost) (w : World) :
  cron_schedule_error (cronExpression tweet) = None →
  schedule_entry cron_schedule_error tweet w =
    (Normal tt,
     mkWorld (file w) (write_failure w) (written w)
       (timers w ++ [mkJob tweet true])
       (<[id tweet := length (timers w)]> (activeJobs w))
       (sigint_handlers w)
       (console w ++
          [(Stdout, [0x2713; 0x20] ++ u16 "Scheduled: " ++ id tweet
                      ++ u16 " (" ++ cronExpression tweet ++ u16 ")")])
       (posted w) (exited w)).
Proof.
  intros H. unfold schedule_entry, cron_schedule. rewrite H. reflexivity.
Qed.

(** An expression [cron.schedule] throws on: nothing is created,
    registered or printed. *)
Lemma schedule_entry_throws (tweet : ScheduledPost) (message : js_string)
    (w : World) :
  cron_schedule_error (cronExpression tweet) = Some message →
  schedule_entry cron_schedule_error tweet w = (Throw message, w).
Proof.
  intros H. unfold schedule_entry, cron_schedule. rewrite H. reflexivity.
Qed.

(** The loop creates one running task per entry, in order, and touches
    neither the file nor the tasks that exist already.  An id no entry
    carries keeps its registration; an entry is registered under its id
    with its own task unless a later entry carries the same id. *)
Lemma forEach_schedule_entry (l : list ScheduledPost) :
  schedulable cron_schedule_error l →
  ∀ w, ∃ m c,
    forEach (schedule_entry cron_schedule_error) l w =
      (Normal tt,
       mkWorld (file w) (write_failure w) (written w)
         (timers w ++ ((λ t, mkJob t true) <$> l)) m
         (sigint_handlers w) c (posted w) (exited w))
    ∧ (∀ key, (∀ t, t ∈ l → id t ≠ key) → m !! key = activeJobs w !! key)
    ∧ (∀ k e, l !! k = Some e →
              (∀ k' e', l !! k' = Some e' → (k < k')%nat → id e' ≠ id e) →
              m !! id e = Some (length (timers w) + k)%nat).
Proof.
  induction l as [|x l IH]; intros Hl w.
  - exists (activeJobs w), (console w). split; [|split].
    + simpl. rewrite app_nil_r. destruct w; reflexivity.
    + reflexivity.
    + intros k e H. destruct k; discriminate H.
  - apply Forall_cons in Hl as [Hx Hl].
    cbn [forEach]. unfold mbind, Eff_bind.
    rewrite (schedule_entry_eq _ _ Hx).
    match goal with
    | |- context [forEach (schedule_entry cron_schedule_error) l ?w1] =>
        destruct (IH Hl w1) as (m & c & E & Hkeep & Hm)
    end.
    rewrite E. cbn [file write_failure written timers activeJobs
                    sigint_handlers posted exited] in *.
    exists m, c. split; [|split].
    + rewrite <- app_assoc. reflexivity.
    + intros key Hkey. rewrite Hkeep.
      * apply lookup_insert_ne. apply Hkey. apply list_elem_of_here.
      * intros t Ht. apply Hkey. apply list_elem_of_further. exact Ht.
    + intros [|k] e Hk Hlater.
      * injection Hk as <-. rewrite Hkeep.
        -- rewrite lookup_insert_eq. f_equal. lia.
        -- intros t Ht. apply list_elem_of_lookup in Ht as [k' Hk'].
           apply (Hlater (S k') t Hk'). lia.
      * rewrite (Hm k e Hk).
        -- rewrite length_app. simpl. f_equal. lia.
        -- intros k' e' Hk' Hlt. apply (Hlater (S k') e' Hk'). lia.
Qed.

(** The loop stops at the first entry [cron.schedule] throws on: the
    entries before it have their tasks, the entries after it have none. *)
Lemma forEach_schedule_entry_throws (l1 l2 : list ScheduledPost)
    (x : ScheduledPost) (message : js_string) :
  schedulable cron_schedule_error l1 →
  cron_schedule_error (cronExpression x) = Some message →
  ∀ w, ∃ m c,
    forEach (schedule_entry cron_schedule_error) (l1 ++ x :: l2) w =
      (Throw message,
       mkWorld (file w) (write_failure w) (written w)
         (timers w ++ ((λ t, mkJob t true) <$> l1)) m
         (sigint_handlers w) c (posted w) (exited w)).
Proof.
  intros Hl Hx. induction l1 as [|y l1 IH]; intros w.
  - exists (activeJobs w), (console w).
    cbn [app forEach]. unfold mbind, Eff_bind.
    rewrite (schedule_entry_throws _ _ _ Hx).
    simpl. rewrite app_nil_r. destruct w; reflexivity.
  - apply Forall_cons in Hl as [Hy Hl].
    cbn [app forEach]. unfold mbind, Eff_bind.
    rewrite (schedule_entry_eq _ _ Hy).
    match goal with
    | |- context [forEach (schedule_entry cron_schedule_error) _ ?w1] =>
        destruct (IH Hl w1) as (m & c & E)
    end.
    rewrite E. cbn [file write_failure written timers activeJobs
                    sigint_handlers posted exited].
    exists m, c. rewrite <- app_assoc. reflexivity.
Qed.

Lemma startScheduler_nonempty (w : World) :
  stored w ≠ [] →
  schedulable cron_schedule_error (stored w) →
  ∃ m c,
    startScheduler cron_schedule_error w =
      (Normal tt,
       mkWorld (file w) (write_failure w) (written w)
         (timers w ++ ((λ t, mkJob t true) <$> stored w)) m
         (S (sigint_handlers w)) c (posted w) (exited w))
    ∧ (∀ k e, stored w !! k = Some e →
              (∀ k' e', stored w !! k' = Some e' → (k < k')%nat →
                        id e' ≠ id e) →
              m !! id e = Some (length (timers w) + k)%nat).
Proof.
  intros Hs Hok. unfold startScheduler, mbind at 1, Eff_bind at 1.
  rewrite loadScheduledTweets_eq.
  destruct (length (stored w) =? 0)%nat eqn:El.
  { apply Nat.eqb_eq in El. destruct (stored w); [congruence|discriminate]. }
  destruct (loadScheduledTweets_world w)
    as (Hfl & Hwf & Hwr & Hts & Haj & Hp & Hx & Hsh).
  destruct (run loadScheduledTweets w) as [f' wf' wr' ts' aj' sh' c' p' x'].
  simpl in Hfl, Hwf, Hwr, Hts, Haj, Hp, Hx, Hsh. subst.
  unfold simpleLogger.info, simpleLogger.plain, console_log, modify.
  unfold mbind at 1, Eff_bind at 1. cbn beta iota.
  unfold mbind at 1, Eff_bind at 1.
  match goal with
  | |- context [forEach (schedule_entry cron_schedule_error) ?l ?w1] =>
      destruct (forEach_schedule_entry l Hok w1) as (m & c & E & _ & Hm)
  end.
  rewrite E. simpl. simpl in Hm.
  eexists m, _. split; [reflexivity|exact Hm].
Qed.

(** [startScheduler] has no handler around the loop: the error of
    [cron.schedule] ends it, after the tasks of the entries before and
    before the SIGINT handler is installed. *)
Lemma startScheduler_throws (w : World) (l1 l2 : list ScheduledPost)
    (x : ScheduledPost) (message : js_string) :
  stored w = l1 ++ x :: l2 →
  schedulable cron_schedule_error l1 →
  cron_schedule_error (cronExpression x) = Some message →
  ∃ m c,
    startScheduler cron_schedule_error w =
      (Throw message,
       mkWorld (file w) (write_failure w) (written w)
         (timers w ++ ((λ t, mkJob t true) <$> l1)) m
         (sigint_handlers w) c (posted w) (exited w)).
Proof.
  intros Hs Hok Hx. unfold startScheduler, mbind at 1, Eff_bind at 1.
  rewrite loadScheduledTweets_eq.
  destruct (length (stored w) =? 0)%nat eqn:El.
  { apply Nat.eqb_eq in El. rewrite Hs, length_app in El. simpl in El. lia. }
  destruct (loadScheduledTweets_world w)
    as (Hfl & Hwf & Hwr & Hts & Haj & Hp & Hx' & Hsh).
  destruct (run loadScheduledTweets w) as [f' wf' wr' ts' aj' sh' c' p' x'].
  simpl in Hfl, Hwf, Hwr, Hts, Haj, Hp, Hx', Hsh. subst.
  unfold simpleLogger.info, simpleLogger.plain, console_log, modify.
  unfold mbind at 1, Eff_bind at 1. cbn beta iota.
  unfold mbind at 1, Eff_bind at 1.
  rewrite Hs.
  match goal with
  | |- context [forEach (schedule_entry cron_schedule_error) _ ?w1] =>
      destruct (forEach_schedule_entry_throws l1 l2 x message Hok Hx w1)
        as (m & c & E)
  end.
  rewrite E. simpl. eexists m, _. reflexivity.
Qed.

(** After [startScheduler] every stored entry has a running task whose
    closure holds the entry as stored; with unique ids that task is the one
    registered under the id of the entry. *)
Lemma startScheduler_timer_of_entry (w : World) (k : nat) (e : ScheduledPost) :
  schedulable cron_schedule_error (stored w) →
  stored w !! k = Some e →
  let w' := run (startScheduler cron_schedule_error) w in
  let job := (length (timers w) + k)%nat in
  timers w' !! job = Some (mkJob e true)
  ∧ file w' = file w
  ∧ (NoDup (id <$> stored w) → activeJobs w' !! id e = Some job).
Proof.
  intros Hok Hk w' job. subst w' job.
  destruct (startScheduler_nonempty w) as (m & c & E & Hm); [|exact Hok|].
  { intros Hnil. rewrite Hnil in Hk. discriminate Hk. }
  unfold run. rewrite E. cbn [snd timers file activeJobs].
  split; [|split; [reflexivity|]].
  - rewrite lookup_app_r by lia.
    replace (length (timers w) + k - length (timers w))%nat with k by lia.
    rewrite list_lookup_fmap, Hk. reflexivity.
  - intros Hnd. apply (Hm k e Hk). intros k' e' Hk' Hlt Hid.
    assert (k' = k); [|lia].
    apply (NoDup_lookup (id <$> stored w) k' k (id e) Hnd).
    + rewrite list_lookup_fmap, Hk'. simpl. congruence.
    + rewrite list_lookup_fmap, Hk. reflexivity.
Qed.

Lemma startScheduler_registers_last (w : World) (l0 : list ScheduledPost)
    (e : ScheduledPost) :
  schedulable cron_schedule_error (stored w) →
  stored w = l0 ++ [e] →
  let w' := run (startScheduler cron_schedule_error) w in
  let job := (length (timers w) + length l0)%nat in
  activeJobs w' !! id e = Some job
  ∧ timers w' !! job = Some (mkJob e true)
  ∧ file w' = file w.
Proof.
  intros Hok Hs w' job. subst w' job.
  assert (stored w !! length l0 = Some e) as Hk.
  { rewrite Hs, lookup_app_r by lia.
    replace (length l0 - length l0)%nat with 0%nat by lia. reflexivity. }
  destruct (startScheduler_timer_of_entry w (length l0) e Hok Hk)
    as (Ht & Hf & _).
  split; [|split; [exact Ht|exact Hf]].
  destruct (startScheduler_nonempty w) as (m & c & E & Hm); [|exact Hok|].
  { rewrite Hs. destruct l0; discriminate. }
  unfold run. rewrite E. cbn [snd activeJobs].
  apply (Hm _ _ Hk). intros k' e' Hk' Hlt.
  apply lookup_lt_Some in Hk'. rewrite Hs, length_app in Hk'.
  simpl in Hk'. lia.
Qed.

End Starting.

(** ** The await *)

Lemma stop_job_captured (h job : nat) (ts : list Job) (j : Job) :
  ts !! job = Some j →
  ∃ j', stop_job h ts !! job = Some j' ∧ captured j' = captured j.
Proof.
  intros Hj. unfold stop_job. destruct (decide (h = job)) as [->|Hne].
  - rewrite list_lookup_alter_eq, Hj. simpl. eauto.
  - rewrite list_lookup_alter_ne by exact Hne. eauto.
Qed.

Lemma callback_resume_absent (tweet : ScheduledPost) (job : nat)
    (now : js_string) (w : World) :
  findIndex (id tweet) (stored w) = None →
  ∃ c, callback_resume tweet job Fulfilled now w =
         (Normal tt,
          mkWorld (file w) (write_failure w) (written w) (timers w)
            (activeJobs w) (sigint_handlers w) c (posted w) (exited w)).
Proof.
  intros Hf. unfold callback_resume.
  unfold mbind at 1, Eff_bind at 1. rewrite loadScheduledTweets_eq, Hf.
  destruct (loadScheduledTweets_world w)
    as (Hfl & Hwf & Hwr & Hts & Haj & Hp & Hx & Hs).
  destruct (run loadScheduledTweets w) as [f' wf' wr' ts' aj' sh' c' p' x'].
  simpl in *. subst. eexists. reflexivity.
Qed.

(** X1.  The race the design accepts: the entry is removed while the post is
    in flight.  The post has happened, with the captured text; when the
    callback resumes it finds no entry of its id and writes nothing. *)
Lemma removed_during_await (job : nat) (j : Job) (w : World) (i : nat)
    (e : ScheduledPost) (now : js_string) :
  timers w !! job = Some j →
  running j = true →
  findIndex (id (captured j)) (stored w) = Some (i, e) →
  NoDup (id <$> stored w) →
  write_failure w = None →
  ∃ w1 w3,
    tick job w = Some w1
    ∧ settle job Fulfilled now
        (run (removeScheduledTweet (id (captured j))) w1) = Some w3
    ∧ posted w3 = posted w ++ [text (captured j)]
    ∧ stored w3 = delete i (stored w)
    ∧ written w3 = written w ++ [delete i (stored w)].
Proof.
  intros Hj Hr Hf Hnd Hw.
  set (w1 := run (callback_call (captured j)) w).
  assert (tick job w = Some w1) as Htick
    by (unfold tick; rewrite Hj, Hr; reflexivity).
  assert (stored w1 = stored w ∧ write_failure w1 = write_failure w
          ∧ timers w1 = timers w ∧ written w1 = written w
          ∧ posted w1 = posted w ++ [text (captured j)])
    as (Hs1 & Hw1 & Hts1 & Hwr1 & Hp1).
  { unfold w1, run. rewrite callback_call_eq. simpl. auto. }
  destruct (removeScheduledTweet_present (id (captured j)) w1 i e)
    as [c E]; [rewrite Hs1; exact Hf|congruence|].
  set (w2 := run (removeScheduledTweet (id (captured j))) w1).
  assert (stored w2 = delete i (stored w)) as Hs2
    by (unfold w2, run; rewrite E, Hs1; reflexivity).
  assert (written w2 = written w ++ [delete i (stored w)]) as Hwr2
    by (unfold w2, run; rewrite E, Hs1, Hwr1; reflexivity).
  assert (posted w2 = posted w ++ [text (captured j)]) as Hp2
    by (unfold w2, run; rewrite E; exact Hp1).
  assert (∃ j', timers w2 !! job = Some j' ∧ captured j' = captured j)
    as (j' & Hj' & Hc').
  { unfold w2, run. rewrite E. cbn [snd timers]. rewrite Hts1.
    destruct (activeJobs w1 !! id (captured j)) as [h|].
    - apply stop_job_captured. exact Hj.
    - eauto. }
  destruct (callback_resume_absent (captured j) job now w2) as [c2 E2].
  { rewrite Hs2. apply (findIndex_delete _ _ Hnd i e Hf). }
  exists w1, (run (callback_resume (captured j) job Fulfilled now) w2).
  split; [exact Htick|].
  split; [unfold settle; fold w2; rewrite Hj', Hc'; reflexivity|].
  unfold run at 1 2 3. rewrite E2. cbn [snd posted stored file written].
  split; [exact Hp2|]. split; [exact Hs2|exact Hwr2].
Qed.

(** ** Claims about the firing routine *)

Lemma fire_live (job : nat) (j : Job) (outcome : PostOutcome)
    (now : js_string) (w : World) :
  timers w !! job = Some j →
  running j = true →
  fire job outcome now w = Some (run (callback (captured j) job outcome now) w).
Proof.
  intros Hj Hr. unfold fire, tick, settle. rewrite Hj, Hr. simpl.
  unfold run at 2. rewrite callback_call_eq. simpl. rewrite Hj.
  unfold run, callback, mbind, Eff_bind. rewrite callback_call_eq.
  reflexivity.
Qed.

(** Below 2^53 the sum of two numbers that hold integers is the sum of
    the integers. *)
Lemma js_add_exact (a b : Z) :
  (Z.abs (a + b) < 2 ^ 53)%Z → js_add a b = (a + b)%Z.
Proof.
  intros H. unfold js_add, js_number. cbv zeta.
  destruct (Z.ltb_spec (Z.abs (a + b)) (2 ^ 53)); [reflexivity|lia].
Qed.

(** The count the firing routine writes after two firings in a row, for a
    count that stays below 2^53. *)
Lemma mark_posted_twice (t1 t2 : js_string) (e : ScheduledPost) :
  (0 ≤ default 0 (postCount e) < 2 ^ 53 - 2)%Z →
  mark_posted t2 (mark_posted t1 e) =
    mkPost (id e) (text e) (cronExpression e) (oneTime e) (createdAt e)
           (Some t2) (Some (default 0 (postCount e) + 2)%Z).
Proof.
  intros Hn. unfold mark_posted. simpl. f_equal. f_equal.
  destruct (postCount e) as [n|]; simpl in *.
  - destruct (Z.eqb_spec n 0) as [->|Hn0]; [reflexivity|].
    rewrite (js_add_exact n 1) by lia.
    destruct (Z.eqb_spec (n + 1) 0); [lia|].
    rewrite js_add_exact by lia. lia.
  - reflexivity.
Qed.

(** C1, as the code has it.  A firing of a live timer hands [postTweetFn]
    the text its closure captured when [startScheduler] created the timer,
    whatever the file holds at that moment: when the call is made the
    routine has only written a log line.  The store is read after the post has succeeded, to
    find the entry by id for the history update, and when the entry is no
    longer stored that update is skipped: file, timers and registry stay as
    they were. *)
Theorem fire_posts_captured_text (job : nat) (j : Job) (outcome : PostOutcome)
    (now : js_string) (w : World) :
  timers w !! job = Some j →
  running j = true →
  ∃ w', fire job outcome now w = Some w'
    ∧ posted w' = posted w ++ [text (captured j)]
    ∧ tick job w =
        Some (set_posted (posted w ++ [text (captured j)])
                (set_console
                   (console w ++
                      [(Stdout, [0xD83D; 0xDCC5; 0x20]
                                  ++ u16 "Executing scheduled tweet: "
                                  ++ id (captured j))]) w))
    ∧ (outcome = Fulfilled →
       findIndex (id (captured j)) (stored w) = None →
       file w' = file w ∧ written w' = written w
       ∧ timers w' = timers w ∧ activeJobs w' = activeJobs w).
Proof.
  intros Hj Hr. rewrite (fire_live job j outcome now w Hj Hr).
  eexists. split; [reflexivity|]. split; [|split].
  - destruct outcome as [|message].
    + destruct (findIndex (id (captured j)) (stored w)) as [[i e]|] eqn:Hf.
      * unfold run, callback, mbind at 1, Eff_bind at 1.
        rewrite callback_call_eq. unfold callback_resume.
        unfold mbind at 1, Eff_bind at 1. rewrite loadScheduledTweets_eq.
        match goal with |- context [run loadScheduledTweets ?w0] =>
          destruct (loadScheduledTweets_world w0)
            as (Hfl & Hwf & Hwr & Hts & Haj & Hp & Hx & Hs);
          change (stored w0) with (stored w);
          destruct (run loadScheduledTweets w0)
            as [f' wf' wr' ts' aj' sh' c' p' x']
        end.
        rewrite Hf. simpl in Hp. subst p'.
        unfold mbind, Eff_bind, saveScheduledTweets, get.
        destruct (oneTime (captured j)); simpl; destruct wf'; reflexivity.
      * destruct (callback_fulfilled_absent (captured j) job now w Hf)
          as [c E].
        unfold run. rewrite E. reflexivity.
    + unfold run. rewrite callback_rejected. reflexivity.
  - unfold tick. rewrite Hj, Hr. reflexivity.
  - intros -> Hf.
    destruct (callback_fulfilled_absent (captured j) job now w Hf) as [c E].
    unfold run. rewrite E. simpl. auto.
Qed.

(** C3.  Take a live timer and the stored entry of its id, a one-shot entry
    ([oneTime] is never rewritten, so the closure of the timer carries the
    flag of the entry [startScheduler] read, see
    [startScheduler_timer_of_entry]); ids are unique in the store and the
    disk is writable.  A
    firing whose post succeeds leaves the store without the entry, stops the
    timer and unregisters it.  The firing writes one document, the one
    without the entry: no written document shows the entry with an
    incremented count. *)
Theorem one_shot_removed_after_success (job : nat) (j : Job) (w : World)
    (i : nat) (e : ScheduledPost) (now : js_string) :
  timers w !! job = Some j →
  running j = true →
  findIndex (id (captured j)) (stored w) = Some (i, e) →
  oneTime e = true →
  oneTime (captured j) = oneTime e →
  NoDup (id <$> stored w) →
  write_failure w = None →
  ∃ w', fire job Fulfilled now w = Some w'
    ∧ result loadScheduledTweets w' = Normal (delete i (stored w))
    ∧ (∀ toLocaleString,
         result (listScheduledTweets toLocaleString) w'
         = Normal (delete i (stored w)))
    ∧ (∀ t, t ∈ stored w' → id t ≠ id e)
    ∧ ¬ live w' job
    ∧ activeJobs w' !! id e = None
    ∧ written w' = written w ++ [stored w']
    ∧ (∀ doc, doc ∈ written w' →
         doc ∈ written w ∨ ∀ t, t ∈ doc → id t ≠ id e).
Proof.
  intros Hj Hr Hf He Hc Hnd Hw.
  rewrite (fire_live job j Fulfilled now w Hj Hr).
  destruct (callback_fulfilled_present (captured j) job now w i e Hf Hw)
    as [c E].
  rewrite Hc, He in E. eexists. split; [reflexivity|].
  unfold run. rewrite E. clear E.
  destruct (findIndex_Some _ _ _ _ Hf) as [_ Hid].
  assert (∀ t, t ∈ delete i (stored w) → id t ≠ id e) as Hgone.
  { rewrite Hid. apply findIndex_None. apply (findIndex_delete _ _ Hnd i e Hf). }
  rewrite loadScheduledTweets_result. cbn [snd].
  split; [reflexivity|].
  split; [intros f; rewrite listScheduledTweets_result; reflexivity|].
  repeat split.
  - exact Hgone.
  - intros (j' & Hj' & Hr'). cbn [timers] in Hj'.
    apply stop_job_not_running in Hj'. congruence.
  - cbn [activeJobs]. rewrite Hid. apply lookup_delete_eq.
  - cbn [written stored file] in *. intros doc Hdoc.
    apply elem_of_app in Hdoc as [Hdoc|Hdoc]; [left; exact Hdoc|].
    apply list_elem_of_singleton in Hdoc. subst doc. right. exact Hgone.
Qed.

(** C4.  Take a live timer and the stored entry of its id, a recurring
    entry that has not fired yet — its count is 0, as [scheduleTweet]
    stores it, or missing — on a writable disk.  After two firings whose
    posts succeed the entry is still stored, at the same place and with the
    same id, text, expression, flag and creation time; [postCount] is 2 and
    [lastPosted] is the time of the second firing.  The timer stays
    live. *)
Theorem recurring_two_firings (job : nat) (j : Job) (w : World) (i : nat)
    (e : ScheduledPost) (t1 t2 : js_string) :
  timers w !! job = Some j →
  running j = true →
  findIndex (id (captured j)) (stored w) = Some (i, e) →
  oneTime e = false →
  oneTime (captured j) = oneTime e →
  postCount e = Some 0%Z ∨ postCount e = None →
  write_failure w = None →
  ∃ w1 w2 e2,
    fire job Fulfilled t1 w = Some w1
    ∧ fire job Fulfilled t2 w1 = Some w2
    ∧ findIndex (id e) (stored w2) = Some (i, e2)
    ∧ e2 = mkPost (id e) (text e) (cronExpression e) (oneTime e)
                  (createdAt e) (Some t2) (Some 2%Z)
    ∧ postCount e2 = Some 2%Z
    ∧ lastPosted e2 = Some t2
    ∧ live w2 job.
Proof.
  intros Hj Hr Hf He Hc Hcount Hw.
  assert (mark_posted t2 (mark_posted t1 e)
          = mkPost (id e) (text e) (cronExpression e) (oneTime e)
                   (createdAt e) (Some t2) (Some 2%Z)) as Htwice.
  { rewrite mark_posted_twice by (destruct Hcount as [-> | ->]; simpl; lia).
    destruct Hcount as [-> | ->]; reflexivity. }
  destruct (findIndex_Some _ _ _ _ Hf) as [_ Hid].
  destruct (callback_fulfilled_present (captured j) job t1 w i e Hf Hw)
    as [c1 E1].
  rewrite Hc, He in E1.
  set (w1 := run (callback (captured j) job Fulfilled t1) w).
  assert (timers w1 = timers w ∧ write_failure w1 = None
          ∧ stored w1 = alter (mark_posted t1) i (stored w))
    as (Hts1 & Hw1 & Hs1).
  { unfold w1, run. rewrite E1. simpl. auto. }
  assert (findIndex (id (captured j)) (stored w1)
          = Some (i, mark_posted t1 e)) as Hf1.
  { rewrite Hs1. apply findIndex_alter; [apply mark_posted_id|exact Hf]. }
  assert (timers w1 !! job = Some j) as Hj1 by (rewrite Hts1; exact Hj).
  destruct (callback_fulfilled_present (captured j) job t2 w1 i
              (mark_posted t1 e) Hf1 Hw1) as [c2 E2].
  rewrite Hc, He in E2.
  set (w2 := run (callback (captured j) job Fulfilled t2) w1).
  assert (timers w2 = timers w1
          ∧ stored w2 = alter (mark_posted t2) i (stored w1))
    as (Hts2 & Hs2).
  { unfold w2, run. rewrite E2. simpl. auto. }
  exists w1, w2, (mark_posted t2 (mark_posted t1 e)).
  split; [apply fire_live; assumption|].
  split; [apply fire_live; assumption|].
  split; [|split; [|split; [|split]]].
  - rewrite Hs2, Hid.
    apply findIndex_alter; [apply mark_posted_id|exact Hf1].
  - exact Htwice.
  - rewrite Htwice. reflexivity.
  - rewrite Htwice. reflexivity.
  - exists j. rewrite Hts2, Hts1. auto.
Qed.

(** C5.  A firing of a live timer whose post is rejected returns normally
    and leaves the file, the documents written, the stored collection, the
    timers and the registry exactly as they were — a one-shot entry
    included; the timer stays live and the process does not exit.  The
    last line on the console is the error, with the id of the entry and the
    message of the rejection. *)
Theorem rejected_post_changes_nothing (job : nat) (j : Job)
    (message now : js_string) (w : World) :
  timers w !! job = Some j →
  running j = true →
  ∃ w', fire job (Rejected message) now w = Some w'
    ∧ result (callback (captured j) job (Rejected message) now) w = Normal tt
    ∧ file w' = file w
    ∧ written w' = written w
    ∧ result loadScheduledTweets w' = result loadScheduledTweets w
    ∧ timers w' = timers w
    ∧ activeJobs w' = activeJobs w
    ∧ live w' job
    ∧ exited w' = exited w
    ∧ last (console w') =
        Some (Stderr, [0x2717; 0x20] ++ u16 "Failed to post scheduled tweet "
                        ++ id (captured j) ++ u16 ": " ++ message).
Proof.
  intros Hj Hr. rewrite (fire_live job j _ now w Hj Hr).
  eexists. split; [reflexivity|].
  rewrite !loadScheduledTweets_result.
  unfold result, run. rewrite callback_rejected. cbn [fst snd].
  unfold stored. cbn [file timers].
  repeat split.
  - exists j. auto.
  - cbn [console].
    rewrite last_app. reflexivity.
Qed.

(** ** Claims about the registry *)

Section RegistryClaims.

Variable cron_validate : js_string → bool.
Variable cron_schedule_error : js_string → option js_string.

Lemma scheduleTweet_Normal_inv (env : Env) (input cron : js_string)
    (oneTime : bool) (w : World) (e : ScheduledPost) :
  result (scheduleTweet cron_validate env input cron oneTime) w = Normal e →
  cron_validate cron = true ∧ trim input ≠ [] ∧ (length input ≤ 280)%nat
  ∧ e = mkPost (generateId env) (trim input) cron oneTime (toISOString env)
               None (Some 0%Z).
Proof.
  unfold result, scheduleTweet.
  destruct (cron_validate cron); cbn [negb]; [|discriminate].
  destruct (bool_decide (input = []) || (length (trim input) =? 0)%nat) eqn:Ht;
    [discriminate|].
  destruct (280 <? length input)%nat eqn:E; [discriminate|].
  apply Nat.ltb_ge in E.
  unfold mbind at 1, Eff_bind at 1. rewrite loadScheduledTweets_eq.
  unfold mbind at 1, Eff_bind at 1.
  destruct (saveScheduledTweets _ _) as [[[]|m] w1]; [|discriminate].
  simpl. intros [= <-]. repeat split; [|lia].
  intros Hn. apply trim_nil_iff in Hn. congruence.
Qed.

Lemma scheduleTweet_timers (env : Env) (input cron : js_string)
    (oneTime : bool) (w : World) :
  ∃ r f wr c,
    scheduleTweet cron_validate env input cron oneTime w =
      (r, mkWorld f (write_failure w) wr (timers w) (activeJobs w)
            (sigint_handlers w) c (posted w) (exited w)).
Proof.
  unfold scheduleTweet.
  destruct (negb (cron_validate cron));
    [destruct w; repeat eexists; reflexivity|].
  destruct (bool_decide (input = []) || (length (trim input) =? 0)%nat);
    [destruct w; repeat eexists; reflexivity|].
  destruct (280 <? length input)%nat;
    [destruct w; repeat eexists; reflexivity|].
  unfold mbind at 1, Eff_bind at 1. rewrite loadScheduledTweets_eq.
  destruct (loadScheduledTweets_world w)
    as (Hfl & Hwf & Hwr & Hts & Haj & Hp & Hx & Hs).
  destruct (run loadScheduledTweets w) as [f' wf' wr' ts' aj' sh' c' p' x'].
  simpl in Hfl, Hwf, Hwr, Hts, Haj, Hp, Hx, Hs. subst.
  unfold mbind, Eff_bind, saveScheduledTweets, get. simpl.
  destruct (write_failure w); simpl; repeat eexists; reflexivity.
Qed.

(** C2, as the code has it.  [scheduleTweet] never creates or registers a
    timer, whether or not the engine is running: it leaves the tasks and
    [activeJobs] exactly as they were.  An entry it has persisted gets its
    live timer, registered under its id, when [startScheduler] next runs,
    provided [cron.schedule] takes the expressions of the entries stored
    before and of the new one; if it throws on an entry stored before,
    [startScheduler] ends with that error, having created tasks for the
    entries before that one only. *)
Theorem scheduleTweet_creates_no_timer (env : Env) (input cron : js_string)
    (oneTime : bool) (w : World) :
  let w' := run (scheduleTweet cron_validate env input cron oneTime) w in
  timers w' = timers w
  ∧ activeJobs w' = activeJobs w
  ∧ ∀ e, result (scheduleTweet cron_validate env input cron oneTime) w
           = Normal e →
         write_failure w = None →
         (schedulable cron_schedule_error (stored w) →
          cron_schedule_error cron = None →
          ∃ job,
            activeJobs (run (startScheduler cron_schedule_error) w') !! id e
              = Some job
            ∧ timers (run (startScheduler cron_schedule_error) w') !! job
              = Some (mkJob e true)
            ∧ (length (timers w) ≤ job)%nat)
         ∧ (∀ l1 x l2 message,
              stored w = l1 ++ x :: l2 →
              schedulable cron_schedule_error l1 →
              cron_schedule_error (cronExpression x) = Some message →
              result (startScheduler cron_schedule_error) w' = Throw message
              ∧ timers (run (startScheduler cron_schedule_error) w')
                = timers w ++ ((λ t, mkJob t true) <$> l1)).
Proof.
  intros w'. subst w'.
  assert (timers (run (scheduleTweet cron_validate env input cron oneTime) w)
          = timers w
          ∧ activeJobs
              (run (scheduleTweet cron_validate env input cron oneTime) w)
            = activeJobs w) as [Hts Haj].
  { destruct (scheduleTweet_timers env input cron oneTime w)
      as (r & f & wr & c & E).
    unfold run. rewrite E. simpl. auto. }
  split; [exact Hts|]. split; [exact Haj|].
  intros e He Hw.
  destruct (scheduleTweet_Normal_inv env input cron oneTime w e He)
    as (Hc & Ht & Hl & Heq).
  destruct (scheduleTweet_accepted cron_validate env input cron oneTime w
              Hc Ht Hl Hw) as [c E].
  assert (stored (run (scheduleTweet cron_validate env input cron oneTime) w)
          = stored w ++ [e]) as Hs.
  { unfold run. rewrite E, Heq. reflexivity. }
  split.
  - intros Hok Hcron.
    assert (schedulable cron_schedule_error
              (stored (run (scheduleTweet cron_validate env input cron
                              oneTime) w))) as Hok'.
    { rewrite Hs. apply Forall_app. split; [exact Hok|].
      apply Forall_singleton. rewrite Heq. exact Hcron. }
    destruct (startScheduler_registers_last cron_schedule_error _ _ _ Hok' Hs)
      as (H1 & H2 & _).
    eexists. split; [exact H1|]. split; [exact H2|]. rewrite Hts. lia.
  - intros l1 x l2 message Hsplit Hok Hx.
    set (w1 := run (scheduleTweet cron_validate env input cron oneTime) w)
      in *.
    destruct (startScheduler_throws cron_schedule_error w1
                l1 (l2 ++ [e]) x message) as (m & c0 & Ethrow);
      [rewrite Hs, Hsplit, <- app_assoc; reflexivity|exact Hok|exact Hx|].
    unfold result, run. rewrite Ethrow. cbn [fst snd timers].
    split; [reflexivity|]. rewrite Hts. reflexivity.
Qed.

End RegistryClaims.

(** C9.  When the store holds an entry of the given id (ids being unique,
    the disk writable), [removeScheduledTweet] returns true; afterwards
    [load] returns the collection without that entry, no entry of that id
    is left, the id is no longer registered and the timer that was
    registered under it is not live; a second call with the same id returns
    false and writes nothing.  When the store holds no entry of the given
    id, the call returns false and leaves the file, the timers and the
    registry as they were. *)
Theorem removeScheduledTweet_spec (key : js_string) (w : World) :
  (∀ i e,
     findIndex key (stored w) = Some (i, e) →
     NoDup (id <$> stored w) →
     write_failure w = None →
     let w1 := run (removeScheduledTweet key) w in
     result (removeScheduledTweet key) w = Normal true
     ∧ result loadScheduledTweets w1 = Normal (delete i (stored w))
     ∧ (∀ toLocaleString,
          result (listScheduledTweets toLocaleString) w1
          = Normal (delete i (stored w)))
     ∧ (∀ t, t ∈ stored w1 → id t ≠ key)
     ∧ activeJobs w1 !! key = None
     ∧ (∀ job, activeJobs w !! key = Some job → ¬ live w1 job)
     ∧ result (removeScheduledTweet key) w1 = Normal false
     ∧ file (run (removeScheduledTweet key) w1) = file w1
     ∧ written (run (removeScheduledTweet key) w1) = written w1)
  ∧ ((∀ t, t ∈ stored w → id t ≠ key) →
     let w1 := run (removeScheduledTweet key) w in
     result (removeScheduledTweet key) w = Normal false
     ∧ file w1 = file w ∧ written w1 = written w
     ∧ timers w1 = timers w ∧ activeJobs w1 = activeJobs w).
Proof.
  split.
  - intros i e Hf Hnd Hw w1. subst w1.
    destruct (removeScheduledTweet_present key w i e Hf Hw) as [c E].
    pose proof (findIndex_delete key (stored w) Hnd i e Hf) as Hgone.
    set (w1 := run (removeScheduledTweet key) w).
    assert (stored w1 = delete i (stored w)) as Hs1
      by (unfold w1, run; rewrite E; reflexivity).
    assert (findIndex key (stored w1) = None) as Hf1
      by (rewrite Hs1; exact Hgone).
    destruct (removeScheduledTweet_absent key w1 Hf1) as [c1 E1].
    rewrite loadScheduledTweets_result, Hs1.
    split; [unfold result; rewrite E; reflexivity|].
    split; [reflexivity|].
    split; [intros f; rewrite listScheduledTweets_result, Hs1; reflexivity|].
    split; [rewrite <- Hs1; apply findIndex_None; exact Hf1|].
    split; [unfold w1, run; rewrite E; apply lookup_delete_eq|].
    split.
    { intros job Hjob (j' & Hj' & Hr'). revert Hj'.
      unfold w1, run. rewrite E. cbn [snd timers]. rewrite Hjob.
      intros Hj'. apply stop_job_not_running in Hj'. congruence. }
    unfold result, run. rewrite E1. simpl. auto.
  - intros Habs w1. subst w1.
    apply findIndex_None in Habs.
    destruct (removeScheduledTweet_absent key w Habs) as [c E].
    unfold result, run. rewrite E. simpl. auto.
Qed.

(** * The claims on the sample schedule *)

(** ** Where the code departs from the specification *)

(** C1 as the specification has it fails.  The daemon runs on [morning];
    the command line, a process of its own, removes that entry; the timer of
    the daemon is still live and, at its next tick, posts the text of the
    removed entry although the store holds no entry of that id. *)
Lemma fire_posts_text_of_removed_entry :
  result (removeScheduledTweet (id morning))
         (fresh_process (daemon_on [morning])) = Normal true
  ∧ stored daemon_after_cli_remove = []
  ∧ live daemon_after_cli_remove 0
  ∧ ∃ w', fire 0 Fulfilled (u16 "2023-11-15T09:00:00.031Z")
               daemon_after_cli_remove = Some w'
        ∧ posted w' = [text morning]
        ∧ ¬ ∃ e, e ∈ stored daemon_after_cli_remove
                 ∧ id e = id morning
                 ∧ last (posted w') = Some (text e).
Proof.
  split; [vm_compute; reflexivity|]. split; [vm_compute; reflexivity|].
  split; [exists (mkJob morning true); split; vm_compute; reflexivity|].
  eexists. split; [vm_compute; reflexivity|]. split; [reflexivity|].
  intros (e & He & _). vm_compute in He. inversion He.
Qed.

(** The same within one process: after [startScheduler] has run twice the
    registry knows the second task of [morning] only; removing the entry
    stops that one, and the first still fires with its captured text. *)
Lemma fire_after_double_start :
  result (removeScheduledTweet (id morning))
         (run (startScheduler sample_schedule_error) (daemon_on [morning])) = Normal true
  ∧ stored (run (removeScheduledTweet (id morning))
              (run (startScheduler sample_schedule_error) (daemon_on [morning]))) = []
  ∧ ∃ w', fire 0 Fulfilled (u16 "2023-11-15T09:00:00.031Z")
               (run (removeScheduledTweet (id morning))
                  (run (startScheduler sample_schedule_error) (daemon_on [morning]))) = Some w'
        ∧ posted w' = [text morning].
Proof.
  split; [vm_compute; reflexivity|]. split; [vm_compute; reflexivity|].
  eexists. split; [vm_compute; reflexivity|]. reflexivity.
Qed.

(** C2 as the specification has it fails.  The daemon runs on [morning],
    its timer live; the same process schedules a one-shot post, which is
    accepted and persisted; no entry of [activeJobs] and no task exists for
    the new id afterwards. *)
Lemma scheduleTweet_on_running_daemon_registers_nothing :
  live (daemon_on [morning]) 0
  ∧ ∃ e, result (scheduleTweet isValidRecurrence sample_env
                   (u16 "We are live") (u16 "30 18 1 12 *") true)
                (daemon_on [morning]) = Normal e
       ∧ last (stored daemon_after_add) = Some e
       ∧ activeJobs daemon_after_add !! id e = None
       ∧ ¬ ∃ job j, timers daemon_after_add !! job = Some j
                    ∧ id (captured j) = id e.
Proof.
  split; [exists (mkJob morning true); split; vm_compute; reflexivity|].
  eexists. split; [vm_compute; reflexivity|].
  split; [vm_compute; reflexivity|]. split; [vm_compute; reflexivity|].
  intros (job & j & Hj & Hid). vm_compute in Hj.
  destruct job as [|[|job]]; try discriminate Hj.
  injection Hj as <-. vm_compute in Hid. discriminate Hid.
Qed.

(** ** The theorems at work *)

(** The tick of a live timer posts the text of its closure; here the
    store no longer holds the entry. *)
Lemma fire_posts_captured_text_witness :
  timers daemon_after_cli_remove !! 0%nat = Some (mkJob morning true)
  ∧ ∃ w', fire 0 Fulfilled (u16 "2023-11-15T09:00:00.031Z")
               daemon_after_cli_remove = Some w'
        ∧ posted w' = posted daemon_after_cli_remove ++ [text morning].
Proof.
  split; [vm_compute; reflexivity|].
  destruct (fire_posts_captured_text 0 (mkJob morning true) Fulfilled
              (u16 "2023-11-15T09:00:00.031Z") daemon_after_cli_remove)
    as (w' & Hfire & Hposted & _).
  - vm_compute; reflexivity.
  - reflexivity.
  - exists w'. split; [exact Hfire|exact Hposted].
Defined.

(** Scheduling on the running daemon, then starting the scheduler again;
    and the same with [edited] stored before. *)
Lemma scheduleTweet_creates_no_timer_witness :
  timers daemon_after_add = timers (daemon_on [morning])
  ∧ activeJobs daemon_after_add = activeJobs (daemon_on [morning])
  ∧ (∃ job, activeJobs (run (startScheduler sample_schedule_error)
                          daemon_after_add)
              !! generateId sample_env = Some job
          ∧ (1 ≤ job)%nat)
  ∧ result (startScheduler sample_schedule_error)
      (run (scheduleTweet isValidRecurrence sample_env (u16 "We are live")
              (u16 "30 18 1 12 *") true) (disk_with [morning; edited]))
    = Throw (u16 "every day is a invalid expression").
Proof.
  destruct (scheduleTweet_creates_no_timer isValidRecurrence
              sample_schedule_error sample_env
              (u16 "We are live") (u16 "30 18 1 12 *") true
              (daemon_on [morning])) as (Hts & Haj & Hnext).
  destruct (scheduleTweet_creates_no_timer isValidRecurrence
              sample_schedule_error sample_env
              (u16 "We are live") (u16 "30 18 1 12 *") true
              (disk_with [morning; edited])) as (_ & _ & Hbroken).
  split; [exact Hts|]. split; [exact Haj|].
  destruct (Hnext (mkPost (generateId sample_env) (u16 "We are live")
                          (u16 "30 18 1 12 *") true (toISOString sample_env)
                          None (Some 0%Z)))
    as [Hstart _].
  - vm_compute; reflexivity.
  - vm_compute; reflexivity.
  - destruct (Hbroken (mkPost (generateId sample_env) (u16 "We are live")
                              (u16 "30 18 1 12 *") true
                              (toISOString sample_env) None (Some 0%Z)))
      as [_ Hthrow].
    + vm_compute; reflexivity.
    + reflexivity.
    + destruct Hstart as (job & Hjob & _ & Hle).
      * apply Forall_cons. split; [vm_compute; reflexivity|apply Forall_nil].
        exact I.
      * vm_compute; reflexivity.
      * split; [exists job; split; [exact Hjob|exact Hle]|].
        apply (Hthrow [morning] edited []
                 (u16 "every day is a invalid expression")).
        -- reflexivity.
        -- apply Forall_cons. split; [vm_compute; reflexivity|apply Forall_nil].
           exact I.
        -- vm_compute; reflexivity.
Defined.

(** The one-shot entry [launch], second of two stored entries, fires. *)
Lemma one_shot_removed_after_success_witness :
  findIndex (id launch) (stored (daemon_on [morning; launch]))
    = Some (1%nat, launch)
  ∧ oneTime launch = true
  ∧ NoDup (id <$> stored (daemon_on [morning; launch]))
  ∧ ∃ w', fire 1 Fulfilled (u16 "2023-12-01T18:30:00.027Z")
               (daemon_on [morning; launch]) = Some w'
        ∧ result loadScheduledTweets w' = Normal [morning]
        ∧ ¬ live w' 1
        ∧ activeJobs w' !! id launch = None.
Proof.
  assert (NoDup (id <$> stored (daemon_on [morning; launch]))) as Hnd
    by (apply (bool_decide_unpack _); vm_compute; exact I).
  split; [vm_compute; reflexivity|]. split; [reflexivity|].
  split; [exact Hnd|].
  destruct (one_shot_removed_after_success 1 (mkJob launch true)
              (daemon_on [morning; launch]) 1 launch
              (u16 "2023-12-01T18:30:00.027Z"))
    as (w' & Hfire & Hload & _ & _ & Hlive & Hreg & _).
  - vm_compute; reflexivity.
  - reflexivity.
  - vm_compute; reflexivity.
  - reflexivity.
  - reflexivity.
  - exact Hnd.
  - vm_compute; reflexivity.
  - exists w'. split; [exact Hfire|]. split; [exact Hload|].
    split; [exact Hlive|exact Hreg].
Defined.

(** The recurring entry [morning], never fired before, fires twice. *)
Lemma recurring_two_firings_witness :
  findIndex (id morning) (stored (daemon_on [morning; launch]))
    = Some (0%nat, morning)
  ∧ oneTime morning = false
  ∧ postCount morning = Some 0%Z
  ∧ ∃ w1 w2 e2,
      fire 0 Fulfilled (u16 "2023-11-15T09:00:00.031Z")
        (daemon_on [morning; launch]) = Some w1
      ∧ fire 0 Fulfilled (u16 "2023-11-16T09:00:00.044Z") w1 = Some w2
      ∧ findIndex (id morning) (stored w2) = Some (0%nat, e2)
      ∧ lastPosted e2 = Some (u16 "2023-11-16T09:00:00.044Z")
      ∧ postCount e2 = Some 2%Z.
Proof.
  split; [vm_compute; reflexivity|]. split; [reflexivity|].
  split; [reflexivity|].
  destruct (recurring_two_firings 0 (mkJob morning true)
              (daemon_on [morning; launch]) 0 morning
              (u16 "2023-11-15T09:00:00.031Z")
              (u16 "2023-11-16T09:00:00.044Z"))
    as (w1 & w2 & e2 & H1 & H2 & Hfind & _ & Hcount & Hlast & _).
  - vm_compute; reflexivity.
  - reflexivity.
  - vm_compute; reflexivity.
  - reflexivity.
  - reflexivity.
  - left. reflexivity.
  - vm_compute; reflexivity.
  - exists w1, w2, e2. split; [exact H1|]. split; [exact H2|].
    split; [exact Hfind|]. split; [exact Hlast|exact Hcount].
Defined.

(** The post of the one-shot entry [launch] is rejected. *)
Lemma rejected_post_changes_nothing_witness :
  timers (daemon_on [morning; launch]) !! 1%nat = Some (mkJob launch true)
  ∧ ∃ w', fire 1 (Rejected (u16 "Too Many Requests"))
               (u16 "2023-12-01T18:30:00.027Z")
               (daemon_on [morning; launch]) = Some w'
        ∧ file w' = file (daemon_on [morning; launch])
        ∧ result loadScheduledTweets w' = Normal [morning; launch]
        ∧ live w' 1
        ∧ exited w' = None.
Proof.
  split; [vm_compute; reflexivity|].
  destruct (rejected_post_changes_nothing 1 (mkJob launch true)
              (u16 "Too Many Requests") (u16 "2023-12-01T18:30:00.027Z")
              (daemon_on [morning; launch]))
    as (w' & Hfire & _ & Hfile & _ & Hload & _ & _ & Hlive & Hexit & _).
  - vm_compute; reflexivity.
  - reflexivity.
  - exists w'. split; [exact Hfire|]. split; [exact Hfile|].
    split; [rewrite Hload; vm_compute; reflexivity|].
    split; [exact Hlive|rewrite Hexit; reflexivity].
Defined.

(** A text with blanks around it and a daily expression are accepted. *)
Lemma scheduleTweet_valid_roundtrip_witness :
  trim (u16 "  Daily update ") = u16 "Daily update"
  ∧ isValidRecurrence (u16 "0 9 * * *") = true
  ∧ ∃ e, result (scheduleTweet isValidRecurrence sample_env
                   (u16 "  Daily update ") (u16 "0 9 * * *") false)
                (disk_with [launch]) = Normal e
       ∧ text e = u16 "Daily update"
       ∧ lastPosted e = None ∧ postCount e = Some 0%Z
       ∧ result loadScheduledTweets
           (run (scheduleTweet isValidRecurrence sample_env
                   (u16 "  Daily update ") (u16 "0 9 * * *") false)
                (disk_with [launch]))
         = Normal ([launch] ++ [e]).
Proof.
  split; [vm_compute; reflexivity|]. split; [vm_compute; reflexivity|].
  destruct (scheduleTweet_valid_roundtrip isValidRecurrence sample_env
              (u16 "  Daily update ") (u16 "0 9 * * *") false
              (disk_with [launch]))
    as (e & Hres & He & Hlast & Hcount & Hload & _).
  - vm_compute; discriminate.
  - vm_compute; lia.
  - vm_compute; reflexivity.
  - reflexivity.
  - exists e. split; [exact Hres|]. split; [rewrite He; vm_compute; reflexivity|].
    split; [exact Hlast|]. split; [exact Hcount|exact Hload].
Defined.

(** A text of blanks only, and a text of 281 code units, are rejected. *)
Lemma scheduleTweet_rejects_text_witness :
  trim (u16 "   ") = []
  ∧ length padded_text = 281%nat
  ∧ (∃ message,
       scheduleTweet isValidRecurrence sample_env (u16 "   ")
         (u16 "0 9 * * *") false (disk_with [launch])
       = (Throw message, disk_with [launch]))
  ∧ (∃ message,
       scheduleTweet isValidRecurrence sample_env padded_text
         (u16 "0 9 * * *") false (disk_with [launch])
       = (Throw message, disk_with [launch])).
Proof.
  split; [vm_compute; reflexivity|]. split; [vm_compute; reflexivity|].
  split.
  - destruct (scheduleTweet_rejects_text isValidRecurrence sample_env
                (u16 "   ") (u16 "0 9 * * *") false (disk_with [launch]))
      as (message & E & _).
    + left. vm_compute; reflexivity.
    + exists message. exact E.
  - destruct (scheduleTweet_rejects_text isValidRecurrence sample_env
                padded_text (u16 "0 9 * * *") false (disk_with [launch]))
      as (message & E & _).
    + right. vm_compute; lia.
    + exists message. exact E.
Defined.

(** An expression of three fields is rejected. *)
Lemma scheduleTweet_rejects_cron_witness :
  isValidRecurrence (u16 "* * *") = false
  ∧ scheduleTweet isValidRecurrence sample_env (u16 "Daily update")
      (u16 "* * *") false (disk_with [launch])
    = (Throw (u16 "Invalid cron expression: * * *"), disk_with [launch]).
Proof.
  split; [vm_compute; reflexivity|].
  destruct (scheduleTweet_rejects_cron isValidRecurrence sample_env
              (u16 "Daily update") (u16 "* * *") false (disk_with [launch]))
    as (E & _).
  - vm_compute; reflexivity.
  - exact E.
Defined.

(** A minute out of range is rejected as well. *)
Lemma scheduleTweet_rejects_minute_99 :
  isValidRecurrence (u16 "99 * * * *") = false
  ∧ result (scheduleTweet isValidRecurrence sample_env (u16 "Daily update")
              (u16 "99 * * * *") false) (disk_with [launch])
    = Throw (u16 "Invalid cron expression: 99 * * * *").
Proof. split; vm_compute; reflexivity. Qed.

(** Removing [morning] from the running daemon, twice, and removing an id
    that is not stored. *)
Lemma removeScheduledTweet_spec_witness :
  findIndex (id morning) (stored (daemon_on [morning; launch]))
    = Some (0%nat, morning)
  ∧ result (removeScheduledTweet (id morning)) (daemon_on [morning; launch])
    = Normal true
  ∧ result loadScheduledTweets
      (run (removeScheduledTweet (id morning)) (daemon_on [morning; launch]))
    = Normal [launch]
  ∧ ¬ live (run (removeScheduledTweet (id morning))
              (daemon_on [morning; launch])) 0
  ∧ result (removeScheduledTweet (id morning))
      (run (removeScheduledTweet (id morning)) (daemon_on [morning; launch]))
    = Normal false
  ∧ result (removeScheduledTweet (id digest)) (daemon_on [morning; launch])
    = Normal false.
Proof.
  split; [vm_compute; reflexivity|].
  destruct (removeScheduledTweet_spec (id morning)
              (daemon_on [morning; launch])) as [Hpresent _].
  destruct (removeScheduledTweet_spec (id digest)
              (daemon_on [morning; launch])) as [_ Habsent].
  destruct (Hpresent 0%nat morning)
    as (Htrue & Hload & _ & _ & _ & Hstop & Hfalse & _).
  - vm_compute; reflexivity.
  - apply (bool_decide_unpack _); vm_compute; exact I.
  - reflexivity.
  - destruct Habsent as (Hno & _).
    + intros t Ht. vm_compute in Ht.
      apply list_elem_of_In in Ht. simpl in Ht.
      destruct Ht as [<-|[<-|[]]]; vm_compute; discriminate.
    + split; [exact Htrue|]. split; [exact Hload|].
      split; [apply (Hstop 0%nat); vm_compute; reflexivity|].
      split; [exact Hfalse|exact Hno].
Defined.

(** The trimmed text is stored; the padded text is rejected for its
    length. *)
Lemma scheduleTweet_trims_after_length_check_witness :
  result (scheduleTweet isValidRecurrence sample_env (u16 "  Daily update ")
            (u16 "0 9 * * *") false) (disk_with [launch])
    = Normal (mkPost (generateId sample_env) (u16 "Daily update")
                (u16 "0 9 * * *") false (toISOString sample_env) None
                (Some 0%Z))
  ∧ text (mkPost (generateId sample_env) (u16 "Daily update")
            (u16 "0 9 * * *") false (toISOString sample_env) None (Some 0%Z))
    = trim (u16 "  Daily update ")
  ∧ ∃ padded : js_string,
      (280 < length padded)%nat
      ∧ (0 < length (trim padded) ≤ 280)%nat
      ∧ result (scheduleTweet isValidRecurrence sample_env padded
                  (u16 "0 9 * * *") false) (disk_with [launch])
        = Throw (u16 "Tweet exceeds 280 characters ("
                   ++ dec (N.of_nat (length padded)) ++ u16 " chars)").
Proof.
  assert (result (scheduleTweet isValidRecurrence sample_env
                    (u16 "  Daily update ") (u16 "0 9 * * *") false)
                 (disk_with [launch])
          = Normal (mkPost (generateId sample_env) (u16 "Daily update")
                      (u16 "0 9 * * *") false (toISOString sample_env) None
                      (Some 0%Z))) as Hres by (vm_compute; reflexivity).
  split; [exact Hres|].
  destruct (scheduleTweet_trims_after_length_check isValidRecurrence
              sample_env (u16 "  Daily update ") (u16 "0 9 * * *") false
              (disk_with [launch]) _ Hres)
    as (Htext & _ & _ & padded & Hlong & Htrim & Hrej).
  split; [exact Htext|].
  exists padded. split; [exact Hlong|]. split; [exact Htrim|].
  unfold result. rewrite Hrej. reflexivity.
Defined.

(** * Further properties of the scheduler module *)

(** ** What each operation does to the stored collection *)

Lemma saveScheduledTweets_failed (tweets : list ScheduledPost) (w : World)
    (message : js_string) :
  write_failure w = Some message →
  saveScheduledTweets tweets w =
    (Normal tt,
     set_console
       (console w ++
          [(Stderr, u16 "Failed to save scheduled tweets: " ++ message)]) w).
Proof.
  intros Hw. unfold saveScheduledTweets, mbind, Eff_bind, get. simpl.
  rewrite Hw. reflexivity.
Qed.

Lemma callback_stored (tweet : ScheduledPost) (job : nat)
    (outcome : PostOutcome) (now : js_string) (w : World) :
  stored (run (callback tweet job outcome now) w) =
    match outcome, findIndex (id tweet) (stored w), write_failure w with
    | Fulfilled, Some (i, _), None =>
        if oneTime tweet then delete i (stored w)
        else alter (mark_posted now) i (stored w)
    | _, _, _ => stored w
    end.
Proof.
  destruct outcome as [|message].
  - destruct (findIndex (id tweet) (stored w)) as [[i e]|] eqn:Hf.
    + destruct (write_failure w) as [m|] eqn:Hw.
      * unfold run, callback, mbind at 1, Eff_bind at 1.
        rewrite callback_call_eq. unfold callback_resume.
        unfold mbind at 1, Eff_bind at 1. rewrite loadScheduledTweets_eq.
        match goal with |- context [run loadScheduledTweets ?w0] =>
          destruct (loadScheduledTweets_world w0)
            as (Hfl & Hwf & Hwr & Hts & Haj & Hp & Hx & Hs);
          change (stored w0) with (stored w);
          destruct (run loadScheduledTweets w0)
            as [f' wf' wr' ts' aj' sh' c' p' x']
        end.
        rewrite Hf. simpl in Hfl, Hwf. rewrite Hw in Hwf. subst wf' f'.
        unfold mbind, Eff_bind, saveScheduledTweets, get.
        destruct (oneTime tweet); reflexivity.
      * destruct (callback_fulfilled_present tweet job now w i e Hf Hw)
          as [c E].
        unfold run. rewrite E.
        destruct (oneTime tweet); reflexivity.
    + destruct (callback_fulfilled_absent tweet job now w Hf) as [c E].
      unfold run. rewrite E. reflexivity.
  - unfold run. rewrite callback_rejected. reflexivity.
Qed.

Lemma removeScheduledTweet_stored (key : js_string) (w : World) :
  stored (run (removeScheduledTweet key) w) =
    match findIndex key (stored w), write_failure w with
    | Some (i, _), None => delete i (stored w)
    | _, _ => stored w
    end.
Proof.
  destruct (findIndex key (stored w)) as [[i e]|] eqn:Hf.
  - destruct (write_failure w) as [m|] eqn:Hw.
    + unfold run, removeScheduledTweet, mbind at 1, Eff_bind at 1.
      rewrite loadScheduledTweets_eq, Hf.
      destruct (loadScheduledTweets_world w)
        as (Hfl & Hwf & Hwr & Hts & Haj & Hp & Hx & Hs).
      destruct (run loadScheduledTweets w) as [f' wf' wr' ts' aj' sh' c' p' x'].
      simpl in Hfl, Hwf. rewrite Hw in Hwf. subst wf' f'.
      unfold mbind, Eff_bind, saveScheduledTweets, get. simpl.
      destruct (aj' !! key); reflexivity.
    + destruct (removeScheduledTweet_present key w i e Hf Hw) as [c E].
      unfold run. rewrite E. reflexivity.
  - destruct (removeScheduledTweet_absent key w Hf) as [c E].
    unfold run. rewrite E. reflexivity.
Qed.

Lemma scheduleTweet_stored (cron_validate : js_string → bool) (env : Env)
    (input cron : js_string) (oneTime : bool) (w : World) :
  stored (run (scheduleTweet cron_validate env input cron oneTime) w)
  = stored w
  ∨ stored (run (scheduleTweet cron_validate env input cron oneTime) w)
    = stored w ++ [mkPost (generateId env) (trim input) cron oneTime
                          (toISOString env) None (Some 0%Z)].
Proof.
  remember (stored (run (scheduleTweet cron_validate env input cron oneTime) w))
    as l eqn:Hl.
  revert Hl. unfold run, scheduleTweet.
  destruct (negb (cron_validate cron)); [intros ->; left; reflexivity|].
  destruct (bool_decide (input = []) || (length (trim input) =? 0)%nat);
    [intros ->; left; reflexivity|].
  destruct (280 <? length input)%nat; [intros ->; left; reflexivity|].
  unfold mbind at 1, Eff_bind at 1. rewrite loadScheduledTweets_eq.
  destruct (loadScheduledTweets_world w)
    as (Hfl & Hwf & Hwr & Hts & Haj & Hp & Hx & Hs).
  destruct (run loadScheduledTweets w) as [f' wf' wr' ts' aj' sh' c' p' x'].
  simpl in Hfl. subst f'.
  unfold mbind, Eff_bind, saveScheduledTweets, get. simpl.
  destruct wf'; intros ->; [left|right]; reflexivity.
Qed.

Lemma fire_inv (job : nat) (outcome : PostOutcome) (now : js_string)
    (w w' : World) :
  fire job outcome now w = Some w' →
  ∃ j, timers w !! job = Some j ∧ running j = true
       ∧ w' = run (callback (captured j) job outcome now) w.
Proof.
  intros H. destruct (timers w !! job) as [j|] eqn:Hj.
  - destruct (running j) eqn:Hr.
    + rewrite (fire_live job j outcome now w Hj Hr) in H.
      injection H as <-. eauto.
    + unfold fire, tick in H. rewrite Hj, Hr in H. discriminate H.
  - unfold fire, tick in H. rewrite Hj in H. discriminate H.
Qed.

Lemma ids_alter_mark_posted (now : js_string) (i : nat)
    (l : list ScheduledPost) :
  id <$> alter (mark_posted now) i l = id <$> l.
Proof.
  revert i. induction l as [|x l IH]; intros [|i]; simpl; try reflexivity.
  f_equal. apply IH.
Qed.

Lemma NoDup_ids_delete (i : nat) (l : list ScheduledPost) :
  NoDup (id <$> l) → NoDup (id <$> delete i l).
Proof.
  intros H. rewrite list_fmap_delete.
  apply (sublist_NoDup _ _ H), sublist_delete.
Qed.

(** X2.  Unique ids are an invariant of the module: removing an entry and
    any firing keep them unique, and so does adding an entry whose generated
    id is not stored yet. *)
Theorem unique_ids_invariant (w : World) :
  NoDup (id <$> stored w) →
  (∀ key, NoDup (id <$> stored (run (removeScheduledTweet key) w)))
  ∧ (∀ job outcome now w',
       fire job outcome now w = Some w' → NoDup (id <$> stored w'))
  ∧ (∀ cron_validate env input cron oneTime,
       generateId env ∉ id <$> stored w →
       NoDup (id <$> stored
                (run (scheduleTweet cron_validate env input cron oneTime) w))).
Proof.
  intros Hnd. split; [|split].
  - intros key. rewrite removeScheduledTweet_stored.
    destruct (findIndex key (stored w)) as [[i e]|]; [|exact Hnd].
    destruct (write_failure w); [exact Hnd|]. apply NoDup_ids_delete, Hnd.
  - intros job outcome now w' Hfire.
    destruct (fire_inv _ _ _ _ _ Hfire) as (j & _ & _ & ->).
    rewrite callback_stored. destruct outcome; [|exact Hnd].
    destruct (findIndex _ _) as [[i e]|]; [|exact Hnd].
    destruct (write_failure w); [exact Hnd|].
    destruct (oneTime (captured j)).
    + apply NoDup_ids_delete, Hnd.
    + rewrite ids_alter_mark_posted. exact Hnd.
  - intros cv env input cron oneTime Hfresh.
    destruct (scheduleTweet_stored cv env input cron oneTime w) as [->| ->];
      [exact Hnd|].
    rewrite fmap_app. apply NoDup_app. split; [exact Hnd|]. split.
    + intros x Hx Hx'. apply list_elem_of_singleton in Hx'. subst x.
      exact (Hfresh Hx).
    + apply NoDup_singleton.
Qed.

Lemma filter_other_alter (f : ScheduledPost → ScheduledPost) (key : js_string)
    (l : list ScheduledPost) :
  (∀ t, id (f t) = id t) →
  ∀ i e, l !! i = Some e → id e = key →
  filter (λ t, id t ≠ key) (alter f i l) = filter (λ t, id t ≠ key) l.
Proof.
  intros Hf. induction l as [|x l IH]; intros [|i] e Hi Hid;
    try discriminate Hi.
  - injection Hi as ->. change (alter f 0%nat (e :: l)) with (f e :: l).
    rewrite !filter_cons_False; [reflexivity| |]; intros Hn; apply Hn.
    + exact Hid.
    + rewrite Hf. exact Hid.
  - change (alter f (S i) (x :: l)) with (x :: alter f i l).
    rewrite !filter_cons. rewrite (IH i e Hi Hid). reflexivity.
Qed.

Lemma filter_other_delete (key : js_string) (l : list ScheduledPost) :
  ∀ i e, l !! i = Some e → id e = key →
  filter (λ t, id t ≠ key) (delete i l) = filter (λ t, id t ≠ key) l.
Proof.
  induction l as [|x l IH]; intros [|i] e Hi Hid; try discriminate Hi.
  - injection Hi as ->. change (delete 0%nat (e :: l)) with l.
    rewrite filter_cons_False; [reflexivity|]. intros Hn. exact (Hn Hid).
  - change (delete (S i) (x :: l)) with (x :: delete i l).
    rewrite !filter_cons. rewrite (IH i e Hi Hid). reflexivity.
Qed.

(** X3.  Removing an entry and firing a timer touch the entry of that id
    only: the entries of every other id stay in the store, unchanged and in
    the same order. *)
Theorem other_entries_untouched (w : World) :
  (∀ key,
     filter (λ t, id t ≠ key) (stored (run (removeScheduledTweet key) w))
     = filter (λ t, id t ≠ key) (stored w))
  ∧ (∀ job j outcome now w',
       timers w !! job = Some j →
       fire job outcome now w = Some w' →
       filter (λ t, id t ≠ id (captured j)) (stored w')
       = filter (λ t, id t ≠ id (captured j)) (stored w)).
Proof.
  split.
  - intros key. rewrite removeScheduledTweet_stored.
    destruct (findIndex key (stored w)) as [[i e]|] eqn:Hf; [|reflexivity].
    destruct (write_failure w); [reflexivity|].
    destruct (findIndex_Some _ _ _ _ Hf) as [Hi Hid].
    apply (filter_other_delete key _ i e Hi Hid).
  - intros job j outcome now w' Hj Hfire.
    destruct (fire_inv _ _ _ _ _ Hfire) as (j' & Hj' & _ & ->).
    assert (j' = j) as -> by congruence.
    rewrite callback_stored. destruct outcome; [|reflexivity].
    destruct (findIndex _ _) as [[i e]|] eqn:Hf; [|reflexivity].
    destruct (write_failure w); [reflexivity|].
    destruct (findIndex_Some _ _ _ _ Hf) as [Hi Hid].
    destruct (oneTime (captured j)).
    + apply (filter_other_delete _ _ i e Hi Hid).
    + apply (filter_other_alter _ _ _ (mark_posted_id now) i e Hi Hid).
Qed.

(** ** The store on its own *)


(** ** When the file cannot be written *)

(** X5.  [scheduleTweet] on a disk that cannot be written still returns the
    new entity, as if it had been scheduled; the store is what it was,
    nothing is recorded as written, and the failure is reported on stderr. *)
Theorem scheduleTweet_unwritable (cron_validate : js_string → bool)
    (env : Env) (input cron : js_string) (oneTime : bool) (w : World)
    (message : js_string) :
  cron_validate cron = true →
  trim input ≠ [] →
  (length input ≤ 280)%nat →
  write_failure w = Some message →
  let w' := run (scheduleTweet cron_validate env input cron oneTime) w in
  result (scheduleTweet cron_validate env input cron oneTime) w
    = Normal (mkPost (generateId env) (trim input) cron oneTime
                     (toISOString env) None (Some 0%Z))
  ∧ file w' = file w
  ∧ written w' = written w
  ∧ result loadScheduledTweets w' = result loadScheduledTweets w
  ∧ (Stderr, u16 "Failed to save scheduled tweets: " ++ message)
    ∈ console w'.
Proof.
  intros Hc Ht Hl Hw w'. subst w'.
  assert (∃ c,
    scheduleTweet cron_validate env input cron oneTime w =
      (Normal (mkPost (generateId env) (trim input) cron oneTime
                      (toISOString env) None (Some 0%Z)),
       mkWorld (file w) (write_failure w) (written w) (timers w)
               (activeJobs w) (sigint_handlers w) c (posted w) (exited w))
    ∧ (Stderr, u16 "Failed to save scheduled tweets: " ++ message) ∈ c)
    as (c & E & Hin).
  { unfold scheduleTweet. rewrite Hc, (trim_not_nil _ Ht). cbn [negb].
    destruct (280 <? length input)%nat eqn:E; [apply Nat.ltb_lt in E; lia|].
    unfold mbind at 1, Eff_bind at 1. rewrite loadScheduledTweets_eq.
    destruct (loadScheduledTweets_world w)
      as (Hfl & Hwf & Hwr & Hts & Haj & Hp & Hx & Hs).
    unfold mbind at 1, Eff_bind at 1.
    rewrite (saveScheduledTweets_failed _ _ message) by congruence.
    destruct (run loadScheduledTweets w) as [f' wf' wr' ts' aj' sh' c' p' x'].
    cbn [file write_failure written timers activeJobs sigint_handlers
         posted exited console] in *. subst.
    unfold simpleLogger.schedule, simpleLogger.info, console_log,
      console_error, modify, mbind, Eff_bind, mret, Eff_ret, set_console.
    cbn [file write_failure written timers activeJobs sigint_handlers
         posted exited console].
    eexists. split; [reflexivity|].
    rewrite !elem_of_app. left. left. left. left. right.
    apply list_elem_of_here. }
  rewrite !loadScheduledTweets_result. unfold result, run. rewrite E.
  cbn [fst snd file written console]. unfold stored. cbn [file]. auto.
Qed.

(** X6.  [removeScheduledTweet] on a disk that cannot be written returns
    true although the entry is still stored; the timer registered under the
    id is stopped and unregistered all the same. *)
Theorem removeScheduledTweet_unwritable (key : js_string) (w : World)
    (i : nat) (e : ScheduledPost) (message : js_string) :
  findIndex key (stored w) = Some (i, e) →
  write_failure w = Some message →
  let w' := run (removeScheduledTweet key) w in
  result (removeScheduledTweet key) w = Normal true
  ∧ file w' = file w
  ∧ findIndex key (stored w') = Some (i, e)
  ∧ activeJobs w' !! key = None
  ∧ (∀ job, activeJobs w !! key = Some job → ¬ live w' job).
Proof.
  intros Hf Hw w'. subst w'.
  assert (∃ c,
    removeScheduledTweet key w =
      (Normal true,
       mkWorld (file w) (write_failure w) (written w)
         (match activeJobs w !! key with
          | Some job => stop_job job (timers w)
          | None => timers w
          end)
         (delete key (activeJobs w))
         (sigint_handlers w) c (posted w) (exited w))) as [c E].
  { unfold removeScheduledTweet, mbind at 1, Eff_bind at 1.
    rewrite loadScheduledTweets_eq, Hf.
    destruct (loadScheduledTweets_world w)
      as (Hfl & Hwf & Hwr & Hts & Haj & Hp & Hx & Hs).
    unfold mbind at 1, Eff_bind at 1.
    rewrite (saveScheduledTweets_failed _ _ message) by congruence.
    destruct (run loadScheduledTweets w) as [f' wf' wr' ts' aj' sh' c' p' x'].
    simpl in *. subst.
    unfold mbind, Eff_bind, get. simpl.
    destruct (activeJobs w !! key) as [job|] eqn:Ej; simpl.
    - eexists. reflexivity.
    - rewrite delete_id by exact Ej. eexists. reflexivity. }
  unfold result, run. rewrite E. cbn [fst snd file activeJobs].
  split; [reflexivity|]. split; [reflexivity|].
  split; [unfold stored; cbn [file]; exact Hf|].
  split; [apply lookup_delete_eq|].
  intros job Hjob (j' & Hj' & Hr'). cbn [timers] in Hj'. rewrite Hjob in Hj'.
  apply stop_job_not_running in Hj'. congruence.
Qed.

(** X7.  A one-shot entry fires and the post succeeds, but the file cannot
    be written: the text has been posted, the timer is stopped and
    unregistered, and the entry is still stored as it was — the next start
    of the daemon schedules it again, when [cron.schedule] takes the
    expressions of the stored entries. *)
Theorem one_shot_unwritable
    (cron_schedule_error : js_string → option js_string) (job : nat)
    (j : Job) (w : World) (i : nat) (e : ScheduledPost)
    (now message : js_string) :
  timers w !! job = Some j →
  running j = true →
  findIndex (id (captured j)) (stored w) = Some (i, e) →
  oneTime (captured j) = true →
  write_failure w = Some message →
  ∃ w', fire job Fulfilled now w = Some w'
    ∧ posted w' = posted w ++ [text (captured j)]
    ∧ file w' = file w
    ∧ ¬ live w' job
    ∧ activeJobs w' !! id (captured j) = None
    ∧ (schedulable cron_schedule_error (stored w) →
       ∃ k, timers (run (startScheduler cron_schedule_error) w') !! k
              = Some (mkJob e true)
            ∧ (length (timers w) ≤ k)%nat).
Proof.
  intros Hj Hr Hf Hone Hw.
  rewrite (fire_live job j Fulfilled now w Hj Hr).
  assert (∃ c,
    callback (captured j) job Fulfilled now w =
      (Normal tt,
       mkWorld (file w) (write_failure w) (written w)
         (stop_job job (timers w)) (delete (id (captured j)) (activeJobs w))
         (sigint_handlers w) c (posted w ++ [text (captured j)]) (exited w)))
    as [c E].
  { unfold callback, mbind at 1, Eff_bind at 1.
    rewrite callback_call_eq. unfold callback_resume.
    unfold mbind at 1, Eff_bind at 1. rewrite loadScheduledTweets_eq.
    match goal with |- context [run loadScheduledTweets ?w0] =>
      destruct (loadScheduledTweets_world w0)
        as (Hfl & Hwf & Hwr & Hts & Haj & Hp & Hx & Hs);
      change (stored w0) with (stored w);
      destruct (run loadScheduledTweets w0)
        as [f' wf' wr' ts' aj' sh' c' p' x']
    end.
    rewrite Hf, Hone. simpl in *. subst.
    unfold mbind, Eff_bind, saveScheduledTweets, get. simpl. rewrite Hw.
    simpl. eexists. reflexivity. }
  eexists. split; [reflexivity|]. unfold run at 1 2 3 4. rewrite E.
  cbn [snd posted file timers activeJobs].
  split; [reflexivity|]. split; [reflexivity|]. split; [|split].
  - intros (j' & Hj' & Hr'). cbn [timers] in Hj'.
    apply stop_job_not_running in Hj'. congruence.
  - apply lookup_delete_eq.
  - intros Hok. destruct (findIndex_Some _ _ _ _ Hf) as [Hi _].
    set (w' := run (callback (captured j) job Fulfilled now) w).
    assert (stored w' = stored w ∧ length (timers w') = length (timers w))
      as [Hs Hlen].
    { unfold w', run. rewrite E. cbn [snd timers]. split; [reflexivity|].
      unfold stop_job. apply length_alter. }
    destruct (startScheduler_timer_of_entry cron_schedule_error w' i e)
      as (Ht & _).
    { rewrite Hs. exact Hok. }
    { rewrite Hs. exact Hi. }
    eexists. split; [exact Ht|]. lia.
Qed.

(** ** Listing *)

Lemma bind_console_only {A B : Type} (m : Eff A) (k : A → Eff B) :
  (∀ w, ∃ a c, m w = (Normal a, set_console c w)) →
  (∀ a w, ∃ b c, k a w = (Normal b, set_console c w)) →
  ∀ w, ∃ b c, (m ≫= k) w = (Normal b, set_console c w).
Proof.
  intros Hm Hk w. unfold mbind, Eff_bind.
  destruct (Hm w) as (a & c1 & ->).
  destruct (Hk a (set_console c1 w)) as (b & c2 & ->).
  exists b, c2. reflexivity.
Qed.

Lemma console_log_only (msg : js_string) :
  ∀ w, ∃ a c, console_log msg w = (Normal a, set_console c w).
Proof. intros w. eexists _, _. reflexivity. Qed.

Lemma mret_console_only {A : Type} (a : A) :
  ∀ w, ∃ a' c, (mret a : Eff A) w = (Normal a', set_console c w).
Proof. intros w. exists a, (console w). destruct w; reflexivity. Qed.

Lemma print_entry_world (toLocaleString : js_string → js_string)
    (index : nat) (tweet : ScheduledPost) (w : World) :
  ∃ c, print_entry toLocaleString index tweet w = (Normal tt, set_console c w).
Proof.
  assert (∀ w, ∃ a c, print_entry toLocaleString index tweet w
                      = (Normal a, set_console c w)) as H.
  { unfold print_entry, simpleLogger.plain.
    repeat (apply bind_console_only; [apply console_log_only|intros _]).
    destruct (lastPosted tweet) as [[|ch s]|];
      try apply mret_console_only.
    apply bind_console_only; [apply console_log_only|intros _].
    apply console_log_only. }
  destruct (H w) as ([] & c & E). exists c. exact E.
Qed.

Lemma print_entries_world (toLocaleString : js_string → js_string)
    (tweets : list ScheduledPost) :
  ∀ index w, ∃ c,
    print_entries toLocaleString index tweets w = (Normal tt, set_console c w).
Proof.
  induction tweets as [|t tweets IH]; intros index w.
  - exists (console w). destruct w; reflexivity.
  - cbn [print_entries]. unfold mbind, Eff_bind.
    destruct (print_entry_world toLocaleString index t w) as [c1 ->].
    destruct (IH (S index) (set_console c1 w)) as [c2 ->].
    exists c2. reflexivity.
Qed.

Lemma listScheduledTweets_eq (toLocaleString : js_string → js_string)
    (w : World) :
  ∃ c, listScheduledTweets toLocaleString w
       = (Normal (stored w), set_console c w).
Proof.
  unfold listScheduledTweets, mbind at 1, Eff_bind at 1.
  rewrite loadScheduledTweets_eq.
  destruct (loadScheduledTweets_world w)
    as (Hfl & Hwf & Hwr & Hts & Haj & Hp & Hx & Hs).
  destruct (run loadScheduledTweets w) as [f' wf' wr' ts' aj' sh' c' p' x'].
  cbn [file write_failure written timers activeJobs sigint_handlers
       posted exited] in *. subst.
  destruct (length (stored w) =? 0)%nat.
  - unfold simpleLogger.info, console_log, modify, mbind, Eff_bind, mret,
      Eff_ret, set_console.
    cbn [file write_failure written timers activeJobs sigint_handlers
         posted exited console].
    eexists. reflexivity.
  - unfold simpleLogger.plain, console_log, modify.
    unfold mbind at 1, Eff_bind at 1. cbn beta iota.
    unfold mbind at 1, Eff_bind at 1. cbn beta iota.
    unfold mbind at 1, Eff_bind at 1.
    match goal with |- context [print_entries ?f ?i ?l ?w0] =>
      destruct (print_entries_world f l i w0) as [c2 ->] end.
    unfold mbind, Eff_bind, mret, Eff_ret, set_console.
    cbn [file write_failure written timers activeJobs sigint_handlers
         posted exited console].
    eexists. reflexivity.
Qed.

(** X8.  [listScheduledTweets] is a read: it returns the stored collection
    and changes nothing but the console, so listing twice in a row returns
    the same sequence, and a load after it returns that sequence too. *)
Theorem listScheduledTweets_read_only (toLocaleString : js_string → js_string)
    (w : World) :
  let w' := run (listScheduledTweets toLocaleString) w in
  result (listScheduledTweets toLocaleString) w = Normal (stored w)
  ∧ result (listScheduledTweets toLocaleString) w' = Normal (stored w)
  ∧ result loadScheduledTweets w' = Normal (stored w)
  ∧ file w' = file w ∧ written w' = written w
  ∧ timers w' = timers w ∧ activeJobs w' = activeJobs w
  ∧ posted w' = posted w ∧ exited w' = exited w.
Proof.
  intros w'. subst w'.
  rewrite !listScheduledTweets_result, loadScheduledTweets_result.
  destruct (listScheduledTweets_eq toLocaleString w) as [c E].
  unfold run. rewrite E. cbn [snd]. unfold set_console, stored.
  cbn [file written timers activeJobs posted exited]. repeat split.
Qed.

(** ** Starting and stopping the daemon *)

Lemma startScheduler_empty
    (cron_schedule_error : js_string → option js_string) (w : World) :
  stored w = [] →
  ∃ c, startScheduler cron_schedule_error w = (Normal tt, set_console c w).
Proof.
  intros Hs. unfold startScheduler, mbind at 1, Eff_bind at 1.
  rewrite loadScheduledTweets_eq, Hs.
  destruct (loadScheduledTweets_world w)
    as (Hfl & Hwf & Hwr & Hts & Haj & Hp & Hx & Hsh).
  destruct (run loadScheduledTweets w) as [f' wf' wr' ts' aj' sh' c' p' x'].
  cbn [file write_failure written timers activeJobs sigint_handlers
       posted exited] in *. subst.
  cbn [length Nat.eqb].
  unfold simpleLogger.info, console_log, modify, set_console.
  cbn [file write_failure written timers activeJobs sigint_handlers
       posted exited console].
  eexists. reflexivity.
Qed.

(** X9.  With nothing stored, [startScheduler] returns at once: it creates
    no task, registers nothing and installs no SIGINT handler, so that a
    process without a handler still has none. *)
Theorem startScheduler_idle
    (cron_schedule_error : js_string → option js_string) (w : World) :
  stored w = [] →
  let w' := run (startScheduler cron_schedule_error) w in
  result (startScheduler cron_schedule_error) w = Normal tt
  ∧ timers w' = timers w
  ∧ activeJobs w' = activeJobs w
  ∧ sigint_handlers w' = sigint_handlers w
  ∧ file w' = file w
  ∧ (sigint_handlers w = 0%nat → sigint w' = None).
Proof.
  intros Hs w'. subst w'.
  destruct (startScheduler_empty cron_schedule_error w Hs) as [c E].
  unfold result, run, sigint. rewrite E. unfold set_console.
  cbn [fst snd timers activeJobs sigint_handlers file].
  repeat split. intros ->. reflexivity.
Qed.

(** X10.  With entries stored whose expressions [cron.schedule] takes,
    [startScheduler] adds one running task per entry, in the order of the
    store and each closing over its entry, after the tasks that exist
    already, which it leaves alone; it installs one more SIGINT handler and
    does not touch the file.  With unique ids each entry is registered
    under its id with its own task.  When [cron.schedule] throws on a
    stored entry, [startScheduler] ends with the error of the first such
    entry: the entries before it have their tasks, the others have none,
    and no SIGINT handler is installed. *)
Theorem startScheduler_one_task_per_entry
    (cron_schedule_error : js_string → option js_string) (w : World) :
  stored w ≠ [] →
  let w' := run (startScheduler cron_schedule_error) w in
  (schedulable cron_schedule_error (stored w) →
   result (startScheduler cron_schedule_error) w = Normal tt
   ∧ timers w' = timers w ++ ((λ t, mkJob t true) <$> stored w)
   ∧ sigint_handlers w' = S (sigint_handlers w)
   ∧ file w' = file w
   ∧ written w' = written w
   ∧ (∀ k e, stored w !! k = Some e → live w' (length (timers w) + k))
   ∧ (NoDup (id <$> stored w) →
      ∀ k e, stored w !! k = Some e →
             activeJobs w' !! id e = Some (length (timers w) + k)%nat))
  ∧ (∀ l1 x l2 message,
       stored w = l1 ++ x :: l2 →
       schedulable cron_schedule_error l1 →
       cron_schedule_error (cronExpression x) = Some message →
       result (startScheduler cron_schedule_error) w = Throw message
       ∧ timers w' = timers w ++ ((λ t, mkJob t true) <$> l1)
       ∧ sigint_handlers w' = sigint_handlers w
       ∧ file w' = file w
       ∧ written w' = written w).
Proof.
  intros Hs w'. subst w'. split.
  - intros Hok.
    destruct (startScheduler_nonempty cron_schedule_error w Hs Hok)
      as (m & c & E & Hm).
    unfold result, run. rewrite E.
    cbn [fst snd timers sigint_handlers file written activeJobs].
    repeat split.
    + intros k e Hk. exists (mkJob e true). split; [|reflexivity].
      cbn [timers]. rewrite lookup_app_r by lia.
      replace (length (timers w) + k - length (timers w))%nat with k by lia.
      rewrite list_lookup_fmap, Hk. reflexivity.
    + intros Hnd k e Hk. apply (Hm k e Hk). intros k' e' Hk' Hlt Hid.
      assert (k' = k); [|lia].
      apply (NoDup_lookup (id <$> stored w) k' k (id e) Hnd).
      * rewrite list_lookup_fmap, Hk'. simpl. congruence.
      * rewrite list_lookup_fmap, Hk. reflexivity.
  - intros l1 x l2 message Hl Hok Hx.
    destruct (startScheduler_throws cron_schedule_error w l1 l2 x message
                Hl Hok Hx) as (m & c & E).
    unfold result, run. rewrite E.
    cbn [fst snd timers sigint_handlers file written].
    repeat split.
Qed.

(** X11.  [startScheduler] does not look at the tasks that run already:
    started twice on entries whose expressions [cron.schedule] takes, every
    stored entry has two live tasks, and only the second is registered
    under its id. *)
Theorem startScheduler_twice
    (cron_schedule_error : js_string → option js_string) (w : World)
    (k : nat) (e : ScheduledPost) :
  stored w !! k = Some e →
  NoDup (id <$> stored w) →
  schedulable cron_schedule_error (stored w) →
  let n := length (stored w) in
  let first := (length (timers w) + k)%nat in
  let w2 := run (startScheduler cron_schedule_error)
                (run (startScheduler cron_schedule_error) w) in
  timers w2 !! first = Some (mkJob e true)
  ∧ timers w2 !! (first + n)%nat = Some (mkJob e true)
  ∧ activeJobs w2 !! id e = Some (first + n)%nat.
Proof.
  intros Hk Hnd Hok n first w2. subst n first w2.
  assert (stored w ≠ []) as Hne
    by (intros Hnil; rewrite Hnil in Hk; discriminate Hk).
  destruct (startScheduler_nonempty cron_schedule_error w Hne Hok)
    as (m & c & E & Hm).
  set (w1 := run (startScheduler cron_schedule_error) w).
  assert (stored w1 = stored w
          ∧ timers w1 = timers w ++ ((λ t, mkJob t true) <$> stored w))
    as [Hs1 Hts1] by (unfold w1, run; rewrite E; auto).
  assert (timers w1 !! (length (timers w) + k)%nat = Some (mkJob e true))
    as Hfirst.
  { rewrite Hts1, lookup_app_r by lia.
    replace (length (timers w) + k - length (timers w))%nat with k by lia.
    rewrite list_lookup_fmap, Hk. reflexivity. }
  assert (length (timers w1) = (length (timers w) + length (stored w))%nat)
    as Hlen by (rewrite Hts1, length_app, length_fmap; reflexivity).
  destruct (startScheduler_timer_of_entry cron_schedule_error w1 k e)
    as (Ht2 & _ & Hreg).
  { rewrite Hs1. exact Hok. }
  { rewrite Hs1. exact Hk. }
  rewrite Hlen in Ht2, Hreg.
  replace (length (timers w) + k + length (stored w))%nat
    with (length (timers w) + length (stored w) + k)%nat by lia.
  split; [|split; [exact Ht2|apply Hreg; rewrite Hs1; exact Hnd]].
  assert (stored w1 ≠ []) as Hne1 by (rewrite Hs1; exact Hne).
  destruct (startScheduler_nonempty cron_schedule_error w1 Hne1)
    as (m2 & c2 & E2 & _); [rewrite Hs1; exact Hok|].
  unfold run at 1. rewrite E2. cbn [snd timers].
  rewrite lookup_app_l; [exact Hfirst|].
  apply lookup_lt_Some in Hfirst. exact Hfirst.
Qed.

Lemma stop_all_spec (m : gmap js_string nat) (ts : list Job) :
  let ts' := map_fold (λ _ job ts, stop_job job ts) ts m in
  length ts' = length ts
  ∧ (∀ job j, ts' !! job = Some j →
       ∃ j0, ts !! job = Some j0 ∧ captured j = captured j0
             ∧ (running j = true → running j0 = true))
  ∧ (∀ key job j, m !! key = Some job → ts' !! job = Some j →
       running j = false).
Proof.
  apply (map_fold_weak_ind
    (λ ts' m,
       length ts' = length ts
       ∧ (∀ job j, ts' !! job = Some j →
            ∃ j0, ts !! job = Some j0 ∧ captured j = captured j0
                  ∧ (running j = true → running j0 = true))
       ∧ (∀ key job j, m !! key = Some job → ts' !! job = Some j →
            running j = false))).
  - split; [reflexivity|]. split.
    + intros job j Hj. eauto.
    + intros key job j Hk. rewrite lookup_empty in Hk. discriminate Hk.
  - intros key job m' r Hnone (Hlen & Hcap & Hstop). split; [|split].
    + unfold stop_job. rewrite length_alter. exact Hlen.
    + intros job' j Hj. unfold stop_job in Hj.
      destruct (decide (job = job')) as [->|Hne].
      * rewrite list_lookup_alter_eq in Hj.
        destruct (r !! job') as [j1|] eqn:Hr; [|discriminate Hj].
        simpl in Hj. injection Hj as <-.
        destruct (Hcap job' j1 Hr) as (j0 & H0 & Hc & _).
        exists j0. repeat split; [exact H0|exact Hc|discriminate].
      * rewrite list_lookup_alter_ne in Hj by exact Hne.
        apply (Hcap job' j Hj).
    + intros key' job' j Hk Hj.
      destruct (decide (job = job')) as [->|Hne].
      * apply (stop_job_not_running _ _ _ Hj).
      * unfold stop_job in Hj.
        rewrite list_lookup_alter_ne in Hj by exact Hne.
        destruct (decide (key = key')) as [->|Hkne].
        -- rewrite lookup_insert_eq in Hk. congruence.
        -- rewrite lookup_insert_ne in Hk by exact Hkne.
           apply (Hstop key' job' j Hk Hj).
Qed.

(** X12.  Once [startScheduler] has installed its handler, SIGINT stops
    every task registered in [activeJobs] and exits with status 0; it starts
    no task, keeps every closure, and does not touch the file. *)
Theorem sigint_stops_registered (w : World) :
  (0 < sigint_handlers w)%nat →
  ∃ w', sigint w = Some w'
    ∧ exited w' = Some 0%Z
    ∧ (∀ key job, activeJobs w !! key = Some job → ¬ live w' job)
    ∧ (∀ job, live w' job → live w job)
    ∧ length (timers w') = length (timers w)
    ∧ file w' = file w ∧ written w' = written w ∧ posted w' = posted w.
Proof.
  intros Hh. unfold sigint.
  destruct (sigint_handlers w) as [|n] eqn:Hn; [lia|].
  eexists. split; [reflexivity|].
  unfold run, on_SIGINT, simpleLogger.info, simpleLogger.success, console_log,
    modify, mbind, Eff_bind, set_console, set_timers, set_exited.
  cbn [snd file write_failure written timers activeJobs sigint_handlers
       posted exited console].
  destruct (stop_all_spec (activeJobs w) (timers w)) as (Hlen & Hcap & Hstop).
  repeat split.
  - intros key job Hk (j & Hj & Hr). cbn [timers] in Hj.
    rewrite (Hstop key job j Hk Hj) in Hr. discriminate Hr.
  - intros job (j & Hj & Hr). cbn [timers] in Hj.
    destruct (Hcap job j Hj) as (j0 & H0 & _ & Hrun). exists j0. auto.
  - exact Hlen.
Qed.

(** ** The stored text *)

Lemma trimStart_head (s : js_string) (c : N) (s' : js_string) :
  trimStart s = c :: s' → is_white_space c = false.
Proof.
  induction s as [|a s IH]; simpl; [discriminate|].
  destruct (is_white_space a) eqn:Ha; [exact IH|].
  intros [= <- <-]. exact Ha.
Qed.

Lemma trimStart_suffix (s : js_string) : ∃ p, s = p ++ trimStart s.
Proof.
  induction s as [|a s [p IH]]; [exists []; reflexivity|]. simpl.
  destruct (is_white_space a).
  - exists (a :: p). simpl. f_equal. exact IH.
  - exists []. reflexivity.
Qed.

Lemma trimStart_id (c : N) (s : js_string) :
  is_white_space c = false → trimStart (c :: s) = c :: s.
Proof. intros H. simpl. rewrite H. reflexivity. Qed.

(** What [trim] returns is empty or has a first and a last code unit that
    are not white space. *)
Lemma trim_ends (s : js_string) :
  trim s = []
  ∨ (∃ a, head (trim s) = Some a ∧ is_white_space a = false)
    ∧ (∃ b, last (trim s) = Some b ∧ is_white_space b = false).
Proof.
  unfold trim, trimEnd.
  destruct (trimStart s) as [|a t] eqn:Ht; [left; reflexivity|].
  pose proof (trimStart_head _ _ _ Ht) as Ha.
  destruct (trimStart (rev (a :: t))) as [|b u] eqn:Hu; [left; reflexivity|].
  pose proof (trimStart_head _ _ _ Hu) as Hb.
  destruct (trimStart_suffix (rev (a :: t))) as [p Hp]. rewrite Hu in Hp.
  apply (f_equal (@rev N)) in Hp.
  rewrite rev_involutive, rev_app_distr in Hp.
  right. cbn [rev] in *. split.
  - destruct (rev u) as [|a2 m].
    + exists b. split; [reflexivity|exact Hb].
    + exists a2. split; [reflexivity|].
      simpl in Hp. injection Hp as -> _. exact Ha.
  - exists b. split; [apply last_snoc|exact Hb].
Qed.

Lemma trim_fixed (s : js_string) :
  (∃ a, head s = Some a ∧ is_white_space a = false) →
  (∃ b, last s = Some b ∧ is_white_space b = false) →
  trim s = s.
Proof.
  intros (a & Ha & Hwa) (b & Hb & Hwb). unfold trim, trimEnd.
  destruct s as [|a2 s]; [discriminate Ha|]. injection Ha as ->.
  rewrite (trimStart_id a s Hwa).
  apply last_Some in Hb as [l2 Hl]. rewrite Hl, rev_app_distr.
  cbn [rev app]. rewrite (trimStart_id b _ Hwb).
  change (b :: rev l2) with (rev [b] ++ rev l2).
  rewrite <- rev_app_distr, rev_involutive. reflexivity.
Qed.

(** Trimming twice is trimming once. *)
Lemma trim_idempotent (s : js_string) : trim (trim s) = trim s.
Proof.
  destruct (trim_ends s) as [->|[Hh Hl]]; [reflexivity|].
  apply trim_fixed; assumption.
Qed.

(** X13.  The text of every entity [scheduleTweet] returns is non-empty, at
    most 280 code units long and free of white space at both ends; scheduled
    again as it is, it is accepted and stored unchanged. *)
Theorem scheduleTweet_text_invariant (cron_validate : js_string → bool)
    (env : Env) (input cron : js_string) (oneTime : bool) (w : World)
    (e : ScheduledPost) :
  result (scheduleTweet cron_validate env input cron oneTime) w = Normal e →
  text e ≠ []
  ∧ (length (text e) ≤ 280)%nat
  ∧ (∃ a, head (text e) = Some a ∧ is_white_space a = false)
  ∧ (∃ b, last (text e) = Some b ∧ is_white_space b = false)
  ∧ ∀ env2 oneTime2 w2,
      ∃ e2, result (scheduleTweet cron_validate env2 (text e) cron oneTime2) w2
            = Normal e2
            ∧ text e2 = text e.
Proof.
  intros H.
  destruct (scheduleTweet_Normal_inv cron_validate env input cron oneTime w e H)
    as (Hc & Ht & Hl & ->).
  cbn [text].
  destruct (trim_ends input) as [Hnil|[Hh Hla]]; [contradiction|].
  pose proof (trim_length input) as Hlen.
  split; [exact Ht|]. split; [lia|]. split; [exact Hh|]. split; [exact Hla|].
  intros env2 oneTime2 w2.
  assert (∃ e2, result (scheduleTweet cron_validate env2 (trim input) cron
                          oneTime2) w2 = Normal e2) as [e2 He2].
  { unfold result, scheduleTweet. rewrite Hc. cbn [negb].
    rewrite trim_not_nil by (rewrite trim_idempotent; exact Ht).
    destruct (280 <? length (trim input))%nat eqn:E;
      [apply Nat.ltb_lt in E; lia|].
    unfold mbind at 1, Eff_bind at 1. rewrite loadScheduledTweets_eq.
    unfold mbind at 1, Eff_bind at 1.
    destruct (saveScheduledTweets _ _) as [[[]|m] w1] eqn:Es.
    - eexists. reflexivity.
    - exfalso. revert Es. unfold saveScheduledTweets, mbind, Eff_bind, get.
      simpl. destruct (write_failure _); discriminate. }
  exists e2. split; [exact He2|].
  destruct (scheduleTweet_Normal_inv _ _ _ _ _ _ _ He2) as (_ & _ & _ & ->).
  cbn [text]. apply trim_idempotent.
Qed.

(** ** Generated ids *)

Lemma u16_inj (s1 s2 : string) : u16 s1 = u16 s2 → s1 = s2.
Proof.
  revert s2. induction s1 as [|a s1 IH]; intros [|b s2]; simpl;
    try discriminate; [reflexivity|].
  intros [= Hab Hs]. f_equal; [|apply IH, Hs].
  rewrite <- (Ascii.ascii_N_embedding a), <- (Ascii.ascii_N_embedding b).
  f_equal. exact Hab.
Qed.

Lemma pretty_N_char_digit (x : N) :
  0x30 ≤ Ascii.N_of_ascii (pretty_N_char x) ≤ 0x39.
Proof.
  unfold pretty_N_char. repeat case_match; vm_compute; split; discriminate.
Qed.

Lemma pretty_N_go_digits (x : N) :
  ∀ s, Forall (λ c, 0x30 ≤ c ≤ 0x39) (u16 s) →
       Forall (λ c, 0x30 ≤ c ≤ 0x39) (u16 (pretty_N_go x s)).
Proof.
  induction (N.lt_wf_0 x) as [x _ IH]. intros s Hs.
  destruct (decide (0 < x)) as [Hx|Hx].
  - rewrite pretty_N_go_step by exact Hx. apply IH.
    + apply N.div_lt; lia.
    + simpl. constructor; [apply pretty_N_char_digit|exact Hs].
  - assert (x = 0) as -> by lia. rewrite pretty_N_go_0. exact Hs.
Qed.

Lemma dec_digits (n : N) : Forall (λ c, 0x30 ≤ c ≤ 0x39) (dec n).
Proof.
  unfold dec, pretty, pretty_N. destruct (decide (n = 0)).
  - repeat constructor; vm_compute; discriminate.
  - apply pretty_N_go_digits. constructor.
Qed.

Lemma dec_inj (n m : N) : dec n = dec m → n = m.
Proof. intros H. apply u16_inj in H. apply (inj pretty) in H. exact H. Qed.

Lemma app_sep_inj (sep : N) (a b x y : js_string) :
  sep ∉ a → sep ∉ b → a ++ sep :: x = b ++ sep :: y → a = b ∧ x = y.
Proof.
  revert b. induction a as [|c a IH]; intros [|d b] Ha Hb H; simpl in H.
  - injection H as ->. auto.
  - injection H as <- _. exfalso. apply Hb. apply list_elem_of_here.
  - injection H as -> _. exfalso. apply Ha. apply list_elem_of_here.
  - injection H as -> H. destruct (IH b) as [-> ->]; auto.
    + intros Hin. apply Ha. apply list_elem_of_further. exact Hin.
    + intros Hin. apply Hb. apply list_elem_of_further. exact Hin.
Qed.

(** X14.  Two generated ids are equal only if they were made at the same
    reading of the clock and from the same nine code units of the random
    string; ids made at different clock readings differ. *)
Theorem generateId_inj (env1 env2 : Env) :
  generateId env1 = generateId env2 ↔
  Date_now env1 = Date_now env2
  ∧ take 9 (drop 2 (Math_random_36 env1))
    = take 9 (drop 2 (Math_random_36 env2)).
Proof.
  unfold generateId. split.
  - intros H. apply app_inv_head in H.
    change (u16 "_" ++ ?x) with (0x5F :: x) in H.
    assert (∀ n, 0x5F ∉ dec n) as Hsep.
    { intros n Hin. pose proof (dec_digits n) as Hd.
      rewrite Forall_forall in Hd. apply Hd in Hin. lia. }
    apply app_sep_inj in H as [Hn Hr]; [|apply Hsep|apply Hsep].
    split; [apply dec_inj, Hn|exact Hr].
  - intros [-> ->]. reflexivity.
Qed.

(** * The X client *)

Lemma handleApiError_calls (error : XClient.ApiError) (s : XClient.State) :
  XClient.calls (XClient.handleApiError error s) = XClient.calls s.
Proof.
  unfold XClient.handleApiError.
  repeat case_bool_decide; try reflexivity.
  destruct (XClient.detail error) as [[|c d]|]; reflexivity.
Qed.

(** X15.  [postTweet] calls the API at most once, and only with a text that
    is non-empty after trimming and at most 280 code units long; a text it
    turns down is reported in one error line and thrown, without a call. *)
Theorem postTweet_guards_api (reply : XClient.Reply) (text : js_string)
    (s : XClient.State) :
  let r := (XClient.postTweet reply text s).1 in
  let s' := (XClient.postTweet reply text s).2 in
  (XClient.calls s' = XClient.calls s ++ [XClient.TweetCall text None]
   ∧ trim text ≠ [] ∧ (length text ≤ 280)%nat)
  ∨ (XClient.calls s' = XClient.calls s
     ∧ (trim text = [] ∨ (280 < length text)%nat)
     ∧ ∃ msg, r = XClient.Thrown (XClient.new_Error msg)
              ∧ XClient.log s'
                = XClient.log s ++ [(XClient.Error, u16 "Error: " ++ msg)]).
Proof.
  intros r s'. subst r s'. unfold XClient.postTweet.
  destruct (bool_decide (text = []) || (length (trim text) =? 0)%nat) eqn:Ht.
  - right. apply trim_nil_iff in Ht. split; [reflexivity|].
    split; [left; exact Ht|]. eexists. split; reflexivity.
  - destruct (280 <? length text)%nat eqn:El.
    + right. apply Nat.ltb_lt in El. split; [reflexivity|].
      split; [right; exact El|]. eexists. split; reflexivity.
    + left. apply Nat.ltb_ge in El.
      assert (trim text ≠ []) as Hne.
      { intros Hn. apply trim_nil_iff in Hn. congruence. }
      destruct reply as [data_id|err].
      * split; [reflexivity|]. split; [exact Hne|exact El].
      * split; [|split; [exact Hne|exact El]].
        unfold XClient.rethrow. cbn [snd]. rewrite handleApiError_calls.
        reflexivity.
Qed.

(** X16.  The text of an entity [scheduleTweet] has returned always passes
    the checks of [postTweet]: the API is called with exactly that text, and
    [postTweet] returns or throws as the API answers. *)
Theorem scheduled_text_reaches_api (cron_validate : js_string → bool)
    (env : Env) (input cron : js_string) (oneTime : bool) (w : World)
    (e : ScheduledPost) :
  result (scheduleTweet cron_validate env input cron oneTime) w = Normal e →
  ∀ reply s,
    XClient.calls (XClient.postTweet reply (text e) s).2
      = XClient.calls s ++ [XClient.TweetCall (text e) None]
    ∧ (XClient.postTweet reply (text e) s).1
      = match reply with
        | XClient.Resolved data_id => XClient.Returned data_id
        | XClient.Failed error => XClient.Thrown error
        end.
Proof.
  intros H reply s.
  destruct (scheduleTweet_Normal_inv _ _ _ _ _ _ _ H) as (_ & Hne & Hlen & ->).
  cbn [text]. pose proof (trim_length input) as Hle.
  unfold XClient.postTweet.
  rewrite trim_not_nil by (rewrite trim_idempotent; exact Hne).
  destruct (280 <? length (trim input))%nat eqn:El;
    [apply Nat.ltb_lt in El; lia|].
  destruct reply as [data_id|err].
  - split; reflexivity.
  - split; [|reflexivity].
    unfold XClient.rethrow. cbn [snd]. rewrite handleApiError_calls.
    reflexivity.
Qed.

(** X17.  [postReply] checks that the text is not blank and nothing else: a
    text that is non-empty after trimming is sent to the API whatever its
    length. *)
Theorem postReply_no_length_check (reply : XClient.Reply)
    (text replyToId : js_string) (s : XClient.State) :
  trim text ≠ [] →
  XClient.calls (XClient.postReply reply text replyToId s).2
    = XClient.calls s ++ [XClient.TweetCall text (Some replyToId)]
  ∧ (XClient.postReply reply text replyToId s).1
    = match reply with
      | XClient.Resolved data_id => XClient.Returned data_id
      | XClient.Failed error => XClient.Thrown error
      end.
Proof.
  intros Hne. unfold XClient.postReply. rewrite (trim_not_nil _ Hne).
  destruct reply as [data_id|err].
  - split; reflexivity.
  - split; [|reflexivity].
    unfold XClient.rethrow. cbn [snd]. rewrite handleApiError_calls.
    reflexivity.
Qed.

(** X18.  [verifyCredentials] never throws: it asks the API once who the
    user is and answers true when that call succeeds and false when it
    fails, the failure having been reported. *)
Theorem verifyCredentials_never_throws (reply : XClient.Reply)
    (s : XClient.State) :
  ∃ b s',
    XClient.verifyCredentials reply s = (XClient.Returned b, s')
    ∧ XClient.calls s' = XClient.calls s ++ [XClient.MeCall]
    ∧ (b = true ↔ ∃ username, reply = XClient.Resolved username)
    ∧ (b = false →
       last (XClient.log s')
       = Some (XClient.Error, u16 "Failed to verify credentials")).
Proof.
  unfold XClient.verifyCredentials, XClient.getMe.
  destruct reply as [username|err].
  - eexists true, _. split; [reflexivity|]. split; [reflexivity|].
    split; [|discriminate]. split; eauto.
  - unfold XClient.rethrow. eexists false, _. split; [reflexivity|].
    split.
    + cbn [XClient.calls XClient.logger]. rewrite handleApiError_calls.
      reflexivity.
    + split; [split; [discriminate|intros [? [=]]]|].
      intros _. unfold XClient.logger at 1. cbn [XClient.log].
      apply last_snoc.
Qed.

(** * The credentials file *)

Lemma split_on_cons (sep : N) (s : js_string) :
  ∃ f fs, split_on sep s = f :: fs.
Proof.
  induction s as [|c s (f & fs & IH)]; [eauto|]. simpl.
  destruct (c =? sep); [eauto|]. rewrite IH. eauto.
Qed.

Lemma split_on_no_sep (sep : N) (p : js_string) :
  sep ∉ p → split_on sep p = [p].
Proof.
  induction p as [|c p IH]; intros Hp; [reflexivity|]. simpl.
  destruct (N.eqb_spec c sep) as [->|Hne].
  - exfalso. apply Hp. apply list_elem_of_here.
  - rewrite IH; [reflexivity|].
    intros Hin. apply Hp. apply list_elem_of_further. exact Hin.
Qed.

Lemma split_on_app_sep (sep : N) (p rest : js_string) :
  sep ∉ p → split_on sep (p ++ sep :: rest) = p :: split_on sep rest.
Proof.
  induction p as [|c p IH]; intros Hp.
  - simpl. rewrite N.eqb_refl. reflexivity.
  - simpl. destruct (N.eqb_spec c sep) as [->|Hne].
    + exfalso. apply Hp. apply list_elem_of_here.
    + rewrite IH; [reflexivity|].
      intros Hin. apply Hp. apply list_elem_of_further. exact Hin.
Qed.

Lemma join_cons_cons (sep p q : js_string) (ps : list js_string) :
  Server.join sep (p :: q :: ps) = p ++ sep ++ Server.join sep (q :: ps).
Proof.
  unfold Server.join. rewrite fmap_cons. cbn [mjoin list_join].
  rewrite <- app_assoc. reflexivity.
Qed.

(** Splitting at a separator what was joined with it gives the parts
    back, when no part holds the separator. *)
Lemma split_on_join (sep : N) (lines : list js_string) :
  lines ≠ [] →
  Forall (λ l, sep ∉ l) lines →
  split_on sep (Server.join [sep] lines) = lines.
Proof.
  induction lines as [|p [|q ps] IH]; intros Hne Hall; [congruence| |].
  - unfold Server.join. simpl. rewrite app_nil_r.
    apply split_on_no_sep. apply (Forall_inv Hall).
  - rewrite join_cons_cons. cbn [app].
    rewrite split_on_app_sep by apply (Forall_inv Hall).
    f_equal. apply IH; [discriminate|apply (Forall_inv_tail Hall)].
Qed.

(** Joining with a separator what was split at it gives the string back. *)
Lemma join_split_on (sep : N) (s : js_string) :
  Server.join [sep] (split_on sep s) = s.
Proof.
  induction s as [|c s IH]; [reflexivity|]. simpl.
  destruct (split_on_cons sep s) as (f & fs & E). rewrite E in *.
  destruct (N.eqb_spec c sep) as [->|Hne].
  - rewrite join_cons_cons. simpl. f_equal. exact IH.
  - destruct fs as [|g gs].
    + unfold Server.join in *. simpl in *. f_equal. exact IH.
    + rewrite join_cons_cons in *. simpl. f_equal. exact IH.
Qed.

Lemma trimStart_elem (s : js_string) (c : N) : c ∈ trimStart s → c ∈ s.
Proof.
  destruct (trimStart_suffix s) as [p Hp]. intros Hc.
  rewrite Hp. apply elem_of_app. right. exact Hc.
Qed.

Lemma trim_elem (s : js_string) (c : N) : c ∈ trim s → c ∈ s.
Proof.
  unfold trim, trimEnd. intros Hc.
  apply list_elem_of_In, in_rev, list_elem_of_In in Hc.
  apply trimStart_elem in Hc.
  apply list_elem_of_In, in_rev, list_elem_of_In in Hc.
  apply trimStart_elem. exact Hc.
Qed.

(** A string [trim] leaves alone, on one line. *)
Lemma trim_app_fixed (k v : js_string) (a : N) :
  head k = Some a → is_white_space a = false →
  (∃ b, last k = Some b ∧ is_white_space b = false) →
  trim v = v →
  trim (k ++ v) = k ++ v.
Proof.
  intros Ha Hwa (b & Hb & Hwb) Hv. apply trim_fixed.
  - exists a. split; [|exact Hwa]. destruct k; [discriminate Ha|exact Ha].
  - destruct v as [|c v] using rev_ind.
    + rewrite app_nil_r. eauto.
    + clear IHv. exists c. rewrite app_assoc. split; [apply last_snoc|].
      destruct (trim_ends (v ++ [c])) as [Hnil|[_ (b' & Hl & Hw)]].
      * rewrite Hv in Hnil. destruct v; discriminate Hnil.
      * rewrite Hv, last_snoc in Hl. injection Hl as <-. exact Hw.
Qed.

Lemma parse_line_skip (result : gmap js_string js_string) (line : js_string) :
  bool_decide (trim line = []) || Server.startsWith (u16 "#") (trim line)
    = true →
  Server.parse_line result line = result.
Proof. intros H. unfold Server.parse_line. cbv zeta. rewrite H. reflexivity. Qed.

(** A line [KEY=value] whose key and value need no trimming enters the
    value as it is under the key, [=] signs of the value included. *)
Lemma parse_key_line (result : gmap js_string js_string) (K v : js_string)
    (a : N) :
  head K = Some a → is_white_space a = false → a ≠ 0x23 →
  0x3D ∉ K → trim K = K → K ≠ u16 "__proto__" →
  trim v = v →
  Server.parse_line result (K ++ u16 "=" ++ v) = <[K := v]> result.
Proof.
  intros Ha Hwa Hhash HK HtK Hproto Hv.
  assert (trim (K ++ u16 "=" ++ v) = K ++ u16 "=" ++ v) as Htrim.
  { rewrite app_assoc. apply (trim_app_fixed _ _ a).
    - destruct K; [discriminate Ha|exact Ha].
    - exact Hwa.
    - exists 0x3D. split; [apply last_snoc|reflexivity].
    - exact Hv. }
  unfold Server.parse_line. cbv zeta. rewrite Htrim.
  destruct K as [|a' K']; [discriminate Ha|]. injection Ha as ->.
  match goal with |- (if ?c then _ else _) = _ =>
    assert (c = false) as -> end.
  { rewrite bool_decide_eq_false_2 by discriminate.
    change (u16 "#") with [0x23]. cbn [app Server.startsWith orb].
    destruct (N.eqb_spec 0x23 a) as [E|_]; [congruence|reflexivity]. }
  change (u16 "=" ++ v) with (0x3D :: v).
  rewrite split_on_app_sep by exact HK.
  rewrite bool_decide_eq_false_2 by discriminate.
  rewrite HtK. rewrite bool_decide_eq_false_2 by exact Hproto.
  change (u16 "=") with [0x3D]. rewrite join_split_on, Hv. reflexivity.
Qed.

Lemma known_key_cases (P : js_string → Prop) :
  P (u16 "X_API_KEY") → P (u16 "X_API_SECRET") → P (u16 "X_ACCESS_TOKEN") →
  P (u16 "X_ACCESS_TOKEN_SECRET") → P (u16 "GROQ_API_KEY") →
  P (u16 "GEMINI_API_KEY") → P (u16 "MISTRAL_API_KEY") →
  ∀ K, K ∈ Server.known_keys → P K.
Proof.
  intros H1 H2 H3 H4 H5 H6 H7 K HK. unfold Server.known_keys in HK.
  repeat (apply elem_of_cons in HK as [->|HK]; [assumption|]).
  inversion HK.
Qed.

Lemma known_key_elem (n : nat) (K : js_string) :
  Server.known_keys !! n = Some K → K ∈ Server.known_keys.
Proof. intros H. apply list_elem_of_lookup. eauto. Qed.

Lemma env_lines_split (envObj : gmap js_string js_string) :
  (∀ K, K ∈ Server.known_keys → 0xA ∉ Server.or_empty (envObj !! K)) →
  split_on 0xA (Server.writeEnvFile envObj) = Server.env_lines envObj.
Proof.
  intros Hnl. unfold Server.writeEnvFile. change newline with [0xA].
  apply split_on_join; [discriminate|].
  assert (∀ k v, 0xA ∉ k → 0xA ∉ v → 0xA ∉ k ++ v) as Happ.
  { intros k v Hk Hv Hin. apply elem_of_app in Hin as [?|?]; auto. }
  unfold Server.env_lines.
  repeat (apply Forall_cons_2;
          [first [ apply Happ;
                     [apply (bool_decide_unpack _); vm_compute; exact I
                     |apply Hnl; apply (bool_decide_unpack _); vm_compute;
                      exact I]
                 | apply (bool_decide_unpack _); vm_compute; exact I ]|]).
  apply Forall_nil_2.
Qed.

Lemma parse_known_key_line (result : gmap js_string js_string)
    (K v : js_string) :
  K ∈ Server.known_keys → trim v = v →
  Server.parse_line result (K ++ u16 "=" ++ v) = <[K := v]> result.
Proof.
  intros HK Hv. revert K HK.
  apply known_key_cases;
    (eapply parse_key_line;
     [reflexivity | reflexivity | discriminate
     | apply (bool_decide_unpack _); vm_compute; exact I
     | vm_compute; reflexivity | vm_compute; discriminate | exact Hv]).
Qed.

Lemma parseEnvFile_writeEnvFile (envObj : gmap js_string js_string) :
  (∀ K, K ∈ Server.known_keys →
        (0xA ∉ Server.or_empty (envObj !! K))
        ∧ trim (Server.or_empty (envObj !! K))
          = Server.or_empty (envObj !! K)) →
  ∀ K, Server.parseEnvFile (Server.writeEnvFile envObj) !! K =
         if bool_decide (K ∈ Server.known_keys)
         then Some (Server.or_empty (envObj !! K))
         else None.
Proof.
  intros Hclean K. unfold Server.parseEnvFile.
  rewrite env_lines_split by (intros K' HK'; apply (Hclean K' HK')).
  unfold Server.env_lines. cbn [foldl].
  rewrite !(parse_line_skip _ (u16 "# X (Twitter) API Credentials"))
    by (vm_compute; reflexivity).
  rewrite !(parse_line_skip _ []) by (vm_compute; reflexivity).
  rewrite !(parse_line_skip _ (u16 "# LLM API Keys"))
    by (vm_compute; reflexivity).
  change (u16 "X_API_KEY=") with (u16 "X_API_KEY" ++ u16 "=").
  change (u16 "X_API_SECRET=") with (u16 "X_API_SECRET" ++ u16 "=").
  change (u16 "X_ACCESS_TOKEN=") with (u16 "X_ACCESS_TOKEN" ++ u16 "=").
  change (u16 "X_ACCESS_TOKEN_SECRET=")
    with (u16 "X_ACCESS_TOKEN_SECRET" ++ u16 "=").
  change (u16 "GROQ_API_KEY=") with (u16 "GROQ_API_KEY" ++ u16 "=").
  change (u16 "GEMINI_API_KEY=") with (u16 "GEMINI_API_KEY" ++ u16 "=").
  change (u16 "MISTRAL_API_KEY=") with (u16 "MISTRAL_API_KEY" ++ u16 "=").
  rewrite <- !app_assoc.
  rewrite !parse_known_key_line
    by first [ apply (bool_decide_unpack _); vm_compute; exact I
             | apply Hclean; apply (bool_decide_unpack _); vm_compute;
               exact I ].
  repeat (rewrite lookup_insert;
          destruct (decide (_ = K)) as [<-|?];
          [rewrite bool_decide_eq_true_2
             by (apply (bool_decide_unpack _); vm_compute; exact I);
           reflexivity|]).
  rewrite lookup_empty. rewrite bool_decide_eq_false_2; [reflexivity|].
  intros HK. unfold Server.known_keys in HK.
  repeat (apply elem_of_cons in HK as [->|HK]; [congruence|]).
  inversion HK.
Qed.

(** X19.  What [writeEnvFile] writes, [parseEnvFile] reads back: the seven
    known variables, each with the value of the object (the empty string for
    a variable the object lacks), and no other variable; writing what was
    read gives the same file again.  The values are taken to be on one line
    and to need no trimming. *)
Theorem writeEnvFile_roundtrip (envObj : gmap js_string js_string) :
  (∀ K, K ∈ Server.known_keys →
        (0xA ∉ Server.or_empty (envObj !! K))
        ∧ trim (Server.or_empty (envObj !! K))
          = Server.or_empty (envObj !! K)) →
  (∀ K, K ∈ Server.known_keys →
        Server.parseEnvFile (Server.writeEnvFile envObj) !! K
        = Some (Server.or_empty (envObj !! K)))
  ∧ (∀ K, K ∉ Server.known_keys →
          Server.parseEnvFile (Server.writeEnvFile envObj) !! K = None)
  ∧ Server.writeEnvFile (Server.parseEnvFile (Server.writeEnvFile envObj))
    = Server.writeEnvFile envObj.
Proof.
  intros Hclean.
  pose proof (parseEnvFile_writeEnvFile envObj Hclean) as H.
  split; [|split].
  - intros K HK. rewrite H, bool_decide_eq_true_2 by exact HK. reflexivity.
  - intros K HK. rewrite H, bool_decide_eq_false_2 by exact HK. reflexivity.
  - unfold Server.writeEnvFile at 1 3. f_equal. unfold Server.env_lines.
    rewrite !H.
    repeat (rewrite bool_decide_eq_true_2
              by (apply (bool_decide_unpack _); vm_compute; exact I)).
    reflexivity.
Qed.


Lemma split_on_fields (sep : N) (s : js_string) :
  Forall (λ f, sep ∉ f) (split_on sep s).
Proof.
  induction s as [|c s IH]; simpl.
  - repeat constructor. inversion 1.
  - destruct (N.eqb_spec c sep) as [->|Hne].
    + constructor; [inversion 1|exact IH].
    + destruct (split_on sep s) as [|f fs].
      * repeat constructor. intros Hin.
        apply list_elem_of_singleton in Hin. congruence.
      * apply Forall_cons in IH as [Hf Hfs]. constructor; [|exact Hfs].
        intros Hin. apply elem_of_cons in Hin as [?|?]; [congruence|auto].
Qed.

Lemma join_tail_elem (sep key : js_string) (parts : list js_string) (c : N) :
  c ∈ Server.join sep parts → c ∈ Server.join sep (key :: parts).
Proof.
  destruct parts as [|p ps]; [inversion 1|]. intros Hc.
  rewrite join_cons_cons. rewrite !elem_of_app. auto.
Qed.

(** Every value [parseEnvFile] reads is on one line and trimmed. *)
Lemma parse_line_clean (result : gmap js_string js_string)
    (line : js_string) :
  0xA ∉ line →
  (∀ K v, result !! K = Some v → (0xA ∉ v) ∧ trim v = v) →
  ∀ K v, Server.parse_line result line !! K = Some v →
         (0xA ∉ v) ∧ trim v = v.
Proof.
  intros Hline Hres K v. unfold Server.parse_line. cbv zeta.
  destruct (_ || _); [apply Hres|].
  destruct (split_on 0x3D (trim line)) as [|key parts] eqn:Hsplit;
    [apply Hres|].
  destruct (bool_decide (key = [])); [apply Hres|].
  destruct (bool_decide (trim key = u16 "__proto__")); [apply Hres|].
  rewrite lookup_insert. destruct (decide (trim key = K)); [|apply Hres].
  intros [= <-]. split; [|apply trim_idempotent].
  intros Hin. apply trim_elem in Hin.
  apply (join_tail_elem _ key) in Hin.
  change (u16 "=") with [0x3D] in Hin.
  rewrite <- Hsplit, join_split_on in Hin.
  apply trim_elem in Hin. exact (Hline Hin).
Qed.

Lemma parseEnvFile_clean (content : js_string) (K v : js_string) :
  Server.parseEnvFile content !! K = Some v → (0xA ∉ v) ∧ trim v = v.
Proof.
  unfold Server.parseEnvFile.
  pose proof (split_on_fields 0xA content) as Hlines.
  assert (∀ K v, (∅ : gmap js_string js_string) !! K = Some v →
                 (0xA ∉ v) ∧ trim v = v) as Hinit.
  { intros ? ? H. rewrite lookup_empty in H. discriminate H. }
  revert Hinit K v. generalize (∅ : gmap js_string js_string).
  induction Hlines as [|line lines Hline _ IH]; intros result Hres K v;
    cbn [foldl]; [apply Hres|].
  apply IH. apply parse_line_clean; assumption.
Qed.

Lemma assign_if_eq (field : option js_string) (K : js_string)
    (env : gmap js_string js_string) :
  Server.assign_if field K env !! K =
    match field with
    | Some (c :: v) => Some (c :: v)
    | _ => env !! K
    end.
Proof.
  unfold Server.assign_if. destruct field as [[|c v]|]; try reflexivity.
  apply lookup_insert_eq.
Qed.

Lemma assign_if_ne (field : option js_string) (key K : js_string)
    (env : gmap js_string js_string) :
  key ≠ K → Server.assign_if field key env !! K = env !! K.
Proof.
  intros Hne. unfold Server.assign_if.
  destruct field as [[|c v]|]; try reflexivity.
  apply lookup_insert_ne. exact Hne.
Qed.

(** A value the handler assigns is the field of the body when that is a
    non-empty string, and the loaded value otherwise. *)
Lemma merge_credentials_lookup (body : Server.Credentials)
    (env : gmap js_string js_string) (f : Server.Credentials → option js_string)
    (K : js_string) :
  (f, K) ∈ Server.credential_fields →
  Server.merge_credentials body env !! K =
    match f body with
    | Some (c :: v) => Some (c :: v)
    | _ => env !! K
    end.
Proof.
  intros HfK. unfold Server.credential_fields in HfK.
  unfold Server.merge_credentials. cbv zeta.
  repeat (apply elem_of_cons in HfK as [HfK|HfK];
          [injection HfK as -> ->;
           rewrite ?assign_if_ne by (vm_compute; discriminate);
           rewrite assign_if_eq;
           rewrite ?assign_if_ne by (vm_compute; discriminate);
           reflexivity|]).
  inversion HfK.
Qed.

(** X20.  Saving credentials and loading them again: for each of the seven
    variables the file then holds the field of the request when that was a
    non-empty string, and the value of the old file otherwise (the empty
    string when there was none); every other variable of the old file is
    gone.  The fields are taken to be on one line and to need no trimming. *)
Theorem post_credentials_roundtrip (body : Server.Credentials)
    (envFile : option js_string) :
  (∀ f K v, (f, K) ∈ Server.credential_fields → f body = Some v →
            (0xA ∉ v) ∧ trim v = v) →
  (∀ f K, (f, K) ∈ Server.credential_fields →
     Server.loadEnv (Some (Server.post_credentials body envFile)) !! K =
       Some (match f body with
             | Some (c :: v) => c :: v
             | _ => Server.or_empty (Server.loadEnv envFile !! K)
             end))
  ∧ (∀ K, K ∉ Server.known_keys →
       Server.loadEnv (Some (Server.post_credentials body envFile)) !! K
       = None).
Proof.
  intros Hbody.
  assert (∀ K v, Server.loadEnv envFile !! K = Some v →
                 (0xA ∉ v) ∧ trim v = v) as Hold.
  { intros K v. destruct envFile as [content|]; cbn [Server.loadEnv].
    - apply parseEnvFile_clean.
    - rewrite lookup_empty. discriminate. }
  assert (∀ f K, (f, K) ∈ Server.credential_fields → K ∈ Server.known_keys)
    as Hkeys.
  { intros f K HfK. unfold Server.credential_fields in HfK.
    repeat (apply elem_of_cons in HfK as [[= -> ->]|HfK];
            [apply (bool_decide_unpack _); vm_compute; exact I|]).
    inversion HfK. }
  assert (∀ K, K ∈ Server.known_keys →
               ∃ f, (f, K) ∈ Server.credential_fields) as Hfields.
  { apply known_key_cases; eexists; unfold Server.credential_fields;
      repeat first [apply list_elem_of_here | apply list_elem_of_further]. }
  assert (∀ K, K ∈ Server.known_keys →
    (0xA ∉ Server.or_empty
             (Server.merge_credentials body (Server.loadEnv envFile) !! K))
    ∧ trim (Server.or_empty
              (Server.merge_credentials body (Server.loadEnv envFile) !! K))
      = Server.or_empty
          (Server.merge_credentials body (Server.loadEnv envFile) !! K))
    as Hclean.
  { intros K HK. destruct (Hfields K HK) as [f HfK].
    rewrite (merge_credentials_lookup body _ f K HfK).
    destruct (f body) as [[|c v]|] eqn:Hf.
    - destruct (Server.loadEnv envFile !! K) as [v0|] eqn:E;
        [apply (Hold K v0 E)|]. split; [inversion 1|reflexivity].
    - apply (Hbody f K (c :: v) HfK Hf).
    - destruct (Server.loadEnv envFile !! K) as [v0|] eqn:E;
        [apply (Hold K v0 E)|]. split; [inversion 1|reflexivity]. }
  unfold Server.post_credentials. cbn [Server.loadEnv]. split.
  - intros f K HfK. rewrite (parseEnvFile_writeEnvFile _ Hclean).
    rewrite bool_decide_eq_true_2 by (apply (Hkeys f K HfK)).
    rewrite (merge_credentials_lookup body _ f K HfK).
    destruct (f body) as [[|c v]|]; reflexivity.
  - intros K HK. rewrite (parseEnvFile_writeEnvFile _ Hclean).
    rewrite bool_decide_eq_false_2 by exact HK. reflexivity.
Qed.

(** X21.  [maskValue] shows the first four and the last four code units of a
    value of twelve or more and nothing of a shorter one: the mask is four
    or twelve code units long, every short or missing value has the same
    mask, and two long values with the same ends have the same mask. *)
Theorem maskValue_shows_ends_only :
  (∀ value, length (Server.maskValue value) = 4%nat
            ∨ length (Server.maskValue value) = 12%nat)
  ∧ (∀ v, (length v < 12)%nat →
          Server.maskValue (Some v) = Server.maskValue None)
  ∧ (∀ v1 v2, (12 ≤ length v1)%nat → (12 ≤ length v2)%nat →
              take 4 v1 = take 4 v2 →
              drop (length v1 - 4) v1 = drop (length v2 - 4) v2 →
              Server.maskValue (Some v1) = Server.maskValue (Some v2)).
Proof.
  split; [|split].
  - intros [v|]; [|left; reflexivity]. unfold Server.maskValue.
    destruct (bool_decide (v = [])) eqn:E1; [left; reflexivity|].
    destruct (length v <? 12)%nat eqn:E2; [left; reflexivity|].
    right. apply Nat.ltb_ge in E2. cbn [orb].
    rewrite !length_app, length_take, length_drop.
    change (length (u16 "****")) with 4%nat. lia.
  - intros v Hv. unfold Server.maskValue.
    apply Nat.ltb_lt in Hv. rewrite Hv, orb_true_r. reflexivity.
  - intros v1 v2 H1 H2 Ht Hd. unfold Server.maskValue.
    rewrite !bool_decide_eq_false_2 by (intros ->; simpl in *; lia).
    apply Nat.ltb_ge in H1, H2. rewrite H1, H2. cbn [orb].
    rewrite Ht, Hd. reflexivity.
Qed.

(** * Generated text and media *)

Lemma strip_quotes_length (s : js_string) :
  (length (LlmClient.strip_quotes s) ≤ length s)%nat.
Proof.
  unfold LlmClient.strip_quotes. cbv zeta.
  assert (length (match s with
                  | [] => []
                  | c :: s' => if LlmClient.is_quote c then s' else s
                  end) ≤ length s)%nat as H.
  { destruct s as [|c s']; [simpl; lia|].
    destruct (LlmClient.is_quote c); simpl; lia. }
  destruct (last _) as [c|]; [|exact H].
  destruct (LlmClient.is_quote c); [|exact H].
  rewrite length_take. lia.
Qed.

(** X22.  [cleanTweet] gives nothing for a missing or empty text only, and
    what it gives is never longer than 500 code units nor longer than the
    text it was given. *)
Theorem cleanTweet_bound (tweet : option js_string) :
  (LlmClient.cleanTweet tweet = None ↔ tweet = None ∨ tweet = Some [])
  ∧ ∀ r, LlmClient.cleanTweet tweet = Some r →
         (length r ≤ 500)%nat
         ∧ ∃ t, tweet = Some t ∧ (length r ≤ length t)%nat.
Proof.
  split.
  - destruct tweet as [[|c t]|]; simpl; split; auto; try discriminate.
    intros [H|H]; discriminate H.
  - intros r. destruct tweet as [[|c t]|]; try discriminate.
    unfold LlmClient.cleanTweet. cbv zeta. intros [= <-].
    pose proof (strip_quotes_length (trim (c :: t))) as H1.
    pose proof (trim_length (c :: t)) as H2.
    split; [|exists (c :: t); split; [reflexivity|]];
      destruct (Nat.ltb_spec 500 (length (LlmClient.strip_quotes (trim (c :: t)))));
      rewrite ?length_app, ?length_take;
      change (length (u16 "...")) with 3%nat; lia.
Qed.

(** X23.  After [addMedia] the composer holds at most four files, and at
    most one when a file of the batch is a video; what it holds is the start
    of the files it held followed by the new ones.  So a video added to a
    composer that holds a file already is dropped, while a batch without a
    video that fits in four is added whole, whatever the composer held. *)
Theorem addMedia_limits (files : list Composer.Picked)
    (mediaFiles : list Composer.MediaFile) :
  let batch := Composer.newMedia <$> files in
  let after := Composer.addMedia files mediaFiles in
  (length after ≤ 4)%nat
  ∧ after `prefix_of` mediaFiles ++ batch
  ∧ (existsb Composer.is_video batch = true →
     (length after ≤ 1)%nat
     ∧ (mediaFiles ≠ [] → after = take 1 mediaFiles))
  ∧ (existsb Composer.is_video batch = false →
     (length mediaFiles + length files ≤ 4)%nat →
     after = mediaFiles ++ batch).
Proof.
  intros batch after. subst batch after. unfold Composer.addMedia. cbv zeta.
  split; [|split; [|split]].
  - rewrite length_take. destruct (existsb _ _); lia.
  - apply prefix_take.
  - intros ->. split; [rewrite length_take; lia|].
    intros Hne. destruct mediaFiles as [|m ms]; [congruence|]. reflexivity.
  - intros -> Hlen. apply take_ge.
    rewrite length_app, length_fmap. exact Hlen.
Qed.

(** ** The further properties at work *)

(** Removing from, and adding to, the store of two entries. *)
Lemma unique_ids_invariant_witness :
  NoDup (id <$> stored (daemon_on [morning; launch]))
  ∧ NoDup (id <$> stored (run (removeScheduledTweet (id morning))
                            (daemon_on [morning; launch])))
  ∧ NoDup (id <$> stored
             (run (scheduleTweet isValidRecurrence sample_env
                     (u16 "Daily update") (u16 "0 9 * * *") false)
                  (daemon_on [morning; launch]))).
Proof.
  assert (NoDup (id <$> stored (daemon_on [morning; launch]))) as Hnd
    by (apply (bool_decide_unpack _); vm_compute; exact I).
  destruct (unique_ids_invariant (daemon_on [morning; launch]) Hnd)
    as (Hremove & _ & Hadd).
  split; [exact Hnd|]. split; [apply Hremove|].
  apply Hadd. apply (bool_decide_unpack _); vm_compute; exact I.
Defined.

(** The one-shot entry fires: the recurring entry beside it is as it
    was. *)
Lemma other_entries_untouched_witness :
  ∃ w', fire 1 Fulfilled (u16 "2023-12-01T18:30:00.027Z")
             (daemon_on [morning; launch]) = Some w'
      ∧ filter (λ t, id t ≠ id launch) (stored w')
        = filter (λ t, id t ≠ id launch)
                 (stored (daemon_on [morning; launch])).
Proof.
  eexists. split; [vm_compute; reflexivity|].
  apply (proj2 (other_entries_untouched (daemon_on [morning; launch]))
           1%nat (mkJob launch true) Fulfilled
           (u16 "2023-12-01T18:30:00.027Z")).
  - vm_compute; reflexivity.
  - vm_compute; reflexivity.
Defined.


(** Scheduling on the disk that refuses writes: the entity is returned,
    the store still holds [morning] only. *)
Lemma scheduleTweet_unwritable_witness :
  result (scheduleTweet isValidRecurrence sample_env (u16 "We are live")
            (u16 "30 18 1 12 *") true) (read_only_disk [morning])
    = Normal (mkPost (generateId sample_env) (trim (u16 "We are live"))
                     (u16 "30 18 1 12 *") true (toISOString sample_env)
                     None (Some 0%Z))
  ∧ result loadScheduledTweets
      (run (scheduleTweet isValidRecurrence sample_env (u16 "We are live")
              (u16 "30 18 1 12 *") true) (read_only_disk [morning]))
    = result loadScheduledTweets (read_only_disk [morning]).
Proof.
  destruct (scheduleTweet_unwritable isValidRecurrence sample_env
              (u16 "We are live") (u16 "30 18 1 12 *") true
              (read_only_disk [morning])
              (u16 "EROFS: read-only file system, open scheduled-tweets.json"))
    as (Hres & _ & _ & Hload & _).
  - vm_compute; reflexivity.
  - vm_compute; discriminate.
  - vm_compute; lia.
  - reflexivity.
  - split; [exact Hres|exact Hload].
Defined.

(** Removing [morning] from the daemon on the disk that refuses writes. *)
Lemma removeScheduledTweet_unwritable_witness :
  result (removeScheduledTweet (id morning))
         (daemon_on_read_only [morning; launch]) = Normal true
  ∧ findIndex (id morning)
      (stored (run (removeScheduledTweet (id morning))
                 (daemon_on_read_only [morning; launch])))
    = Some (0%nat, morning)
  ∧ ¬ live (run (removeScheduledTweet (id morning))
              (daemon_on_read_only [morning; launch])) 0.
Proof.
  destruct (removeScheduledTweet_unwritable (id morning)
              (daemon_on_read_only [morning; launch]) 0 morning
              (u16 "EROFS: read-only file system, open scheduled-tweets.json"))
    as (Hres & _ & Hfind & _ & Hstop).
  - vm_compute; reflexivity.
  - reflexivity.
  - split; [exact Hres|]. split; [exact Hfind|].
    apply Hstop. vm_compute; reflexivity.
Defined.

(** The one-shot entry fires on the disk that refuses writes. *)
Lemma one_shot_unwritable_witness :
  ∃ w', fire 1 Fulfilled (u16 "2023-12-01T18:30:00.027Z")
             (daemon_on_read_only [morning; launch]) = Some w'
      ∧ posted w' = [text launch]
      ∧ file w' = Document (Some [morning; launch])
      ∧ ∃ k, timers (run (startScheduler sample_schedule_error) w') !! k
               = Some (mkJob launch true)
             ∧ (2 ≤ k)%nat.
Proof.
  destruct (one_shot_unwritable sample_schedule_error 1 (mkJob launch true)
              (daemon_on_read_only [morning; launch]) 1 launch
              (u16 "2023-12-01T18:30:00.027Z")
              (u16 "EROFS: read-only file system, open scheduled-tweets.json"))
    as (w' & Hfire & Hposted & Hfile & _ & _ & Hnext).
  - vm_compute; reflexivity.
  - reflexivity.
  - vm_compute; reflexivity.
  - reflexivity.
  - reflexivity.
  - destruct Hnext as (k & Hk & Hle).
    + repeat (apply Forall_cons; split; [vm_compute; reflexivity|]).
      apply Forall_nil. exact I.
    + exists w'. split; [exact Hfire|]. split; [exact Hposted|].
      split; [exact Hfile|]. exists k. split; [exact Hk|exact Hle].
Defined.

(** Starting the scheduler on an empty store. *)
Lemma startScheduler_idle_witness :
  timers (run (startScheduler sample_schedule_error) (disk_with [])) = []
  ∧ sigint (run (startScheduler sample_schedule_error) (disk_with [])) = None.
Proof.
  destruct (startScheduler_idle sample_schedule_error (disk_with []))
    as (_ & Hts & _ & _ & _ & Hs).
  - reflexivity.
  - split; [exact Hts|]. apply Hs. reflexivity.
Defined.

(** Starting the scheduler on two entries; and on three, the second of
    which [cron.schedule] throws on. *)
Lemma startScheduler_one_task_per_entry_witness :
  timers (daemon_on [morning; launch])
    = [mkJob morning true; mkJob launch true]
  ∧ activeJobs (daemon_on [morning; launch]) !! id launch = Some 1%nat
  ∧ result (startScheduler sample_schedule_error)
      (disk_with [morning; edited; launch])
    = Throw (u16 "every day is a invalid expression")
  ∧ timers (daemon_on [morning; edited; launch]) = [mkJob morning true]
  ∧ sigint_handlers (daemon_on [morning; edited; launch]) = 0%nat.
Proof.
  destruct (startScheduler_one_task_per_entry sample_schedule_error
              (disk_with [morning; launch])) as [Hok _]; [discriminate|].
  destruct (startScheduler_one_task_per_entry sample_schedule_error
              (disk_with [morning; edited; launch])) as [_ Hthrow];
    [discriminate|].
  destruct Hok as (_ & Hts & _ & _ & _ & _ & Hreg).
  { repeat (apply Forall_cons; split; [vm_compute; reflexivity|]).
    apply Forall_nil. exact I. }
  destruct (Hthrow [morning] edited [launch]
              (u16 "every day is a invalid expression"))
    as (Hres & Hts2 & Hsig & _).
  { reflexivity. }
  { apply Forall_cons. split; [vm_compute; reflexivity|].
    apply Forall_nil. exact I. }
  { vm_compute; reflexivity. }
  split; [exact Hts|]. split.
  - apply (Hreg ltac:(apply (bool_decide_unpack _); vm_compute; exact I)
             1%nat launch).
    reflexivity.
  - split; [exact Hres|]. split; [exact Hts2|exact Hsig].
Defined.

(** Starting the scheduler twice on two entries: [launch] has the tasks 1
    and 3, and the registry knows the second. *)
Lemma startScheduler_twice_witness :
  timers (run (startScheduler sample_schedule_error)
            (daemon_on [morning; launch])) !! 1%nat
    = Some (mkJob launch true)
  ∧ timers (run (startScheduler sample_schedule_error)
              (daemon_on [morning; launch])) !! 3%nat
    = Some (mkJob launch true)
  ∧ activeJobs (run (startScheduler sample_schedule_error)
                  (daemon_on [morning; launch])) !! id launch
    = Some 3%nat.
Proof.
  apply (startScheduler_twice sample_schedule_error
           (disk_with [morning; launch]) 1 launch).
  - reflexivity.
  - apply (bool_decide_unpack _); vm_compute; exact I.
  - repeat (apply Forall_cons; split; [vm_compute; reflexivity|]).
    apply Forall_nil. exact I.
Defined.

(** SIGINT on the daemon of two entries. *)
Lemma sigint_stops_registered_witness :
  ∃ w', sigint (daemon_on [morning; launch]) = Some w'
      ∧ exited w' = Some 0%Z
      ∧ ¬ live w' 0 ∧ ¬ live w' 1.
Proof.
  destruct (sigint_stops_registered (daemon_on [morning; launch]))
    as (w' & Hs & Hx & Hstop & _).
  - vm_compute; lia.
  - exists w'. split; [exact Hs|]. split; [exact Hx|].
    split; [apply (Hstop (id morning))|apply (Hstop (id launch))];
      vm_compute; reflexivity.
Defined.

(** [morning] is removed while its post is in flight. *)
Lemma removed_during_await_witness :
  ∃ w1 w3,
    tick 0 (daemon_on [morning; launch]) = Some w1
    ∧ settle 0 Fulfilled (u16 "2023-11-15T09:00:00.031Z")
        (run (removeScheduledTweet (id morning)) w1) = Some w3
    ∧ posted w3 = [text morning]
    ∧ stored w3 = [launch]
    ∧ written w3 = [[launch]].
Proof.
  destruct (removed_during_await 0 (mkJob morning true)
              (daemon_on [morning; launch]) 0 morning
              (u16 "2023-11-15T09:00:00.031Z"))
    as (w1 & w3 & Htick & Hsettle & Hposted & Hstored & Hwritten).
  - vm_compute; reflexivity.
  - reflexivity.
  - vm_compute; reflexivity.
  - apply (bool_decide_unpack _); vm_compute; exact I.
  - reflexivity.
  - exists w1, w3. split; [exact Htick|]. split; [exact Hsettle|].
    split; [exact Hposted|]. split; [exact Hstored|exact Hwritten].
Defined.

(** The entity made from a padded text. *)
Lemma scheduleTweet_text_invariant_witness :
  (length (u16 "Daily update") ≤ 280)%nat
  ∧ ∃ e2, result (scheduleTweet isValidRecurrence later_env
                    (u16 "Daily update") (u16 "0 9 * * *") true)
                 (disk_with []) = Normal e2
          ∧ text e2 = u16 "Daily update".
Proof.
  destruct (scheduleTweet_text_invariant isValidRecurrence sample_env
              (u16 "  Daily update ") (u16 "0 9 * * *") false
              (disk_with [launch])
              (mkPost (generateId sample_env) (u16 "Daily update")
                      (u16 "0 9 * * *") false (toISOString sample_env)
                      None (Some 0%Z)))
    as (_ & Hlen & _ & _ & Hagain).
  - vm_compute; reflexivity.
  - split; [exact Hlen|]. exact (Hagain later_env true (disk_with [])).
Defined.

(** The text of that entity, handed to [postTweet]. *)
Lemma scheduled_text_reaches_api_witness :
  XClient.calls
    (XClient.postTweet (XClient.Resolved (u16 "1724500000000000001"))
       (u16 "Daily update") idle_client).2
  = [XClient.TweetCall (u16 "Daily update") None]
  ∧ (XClient.postTweet (XClient.Failed rate_limited)
       (u16 "Daily update") idle_client).1
    = XClient.Thrown rate_limited.
Proof.
  pose proof (scheduled_text_reaches_api isValidRecurrence sample_env
                (u16 "  Daily update ") (u16 "0 9 * * *") false
                (disk_with [launch])
                (mkPost (generateId sample_env) (u16 "Daily update")
                        (u16 "0 9 * * *") false (toISOString sample_env)
                        None (Some 0%Z))
                ltac:(vm_compute; reflexivity)) as H.
  split.
  - exact (proj1 (H (XClient.Resolved (u16 "1724500000000000001"))
                    idle_client)).
  - exact (proj2 (H (XClient.Failed rate_limited) idle_client)).
Defined.

(** A reply of 300 code units is sent. *)
Lemma postReply_no_length_check_witness :
  XClient.calls
    (XClient.postReply (XClient.Resolved (u16 "1724500000000000002"))
       (replicate 300 0x61) (u16 "1724500000000000001") idle_client).2
  = [XClient.TweetCall (replicate 300 0x61)
       (Some (u16 "1724500000000000001"))].
Proof.
  apply (postReply_no_length_check
           (XClient.Resolved (u16 "1724500000000000002"))
           (replicate 300 0x61) (u16 "1724500000000000001") idle_client).
  vm_compute; discriminate.
Defined.

(** A call that is turned down. *)
Lemma verifyCredentials_never_throws_witness :
  ∃ s', XClient.verifyCredentials (XClient.Failed rate_limited) idle_client
        = (XClient.Returned false, s')
      ∧ last (XClient.log s')
        = Some (XClient.Error, u16 "Failed to verify credentials").
Proof.
  destruct (verifyCredentials_never_throws (XClient.Failed rate_limited)
              idle_client) as (b & s' & Heq & _ & Hiff & Hlast).
  destruct b.
  - destruct (proj1 Hiff eq_refl) as [username Hu]. discriminate Hu.
  - exists s'. split; [exact Heq|]. apply Hlast. reflexivity.
Defined.

(** Ids made one millisecond apart differ. *)
Lemma generateId_inj_witness :
  generateId sample_env ≠ generateId later_env.
Proof.
  intros H. apply generateId_inj in H as [H _].
  vm_compute in H. discriminate H.
Defined.

(** Writing one key and reading the file back. *)
Lemma writeEnvFile_roundtrip_witness :
  Server.parseEnvFile
    (Server.writeEnvFile {[ u16 "GROQ_API_KEY" := u16 "gsk_42" ]})
    !! u16 "GROQ_API_KEY" = Some (u16 "gsk_42")
  ∧ Server.parseEnvFile
      (Server.writeEnvFile {[ u16 "GROQ_API_KEY" := u16 "gsk_42" ]})
      !! u16 "X_API_KEY" = Some []
  ∧ Server.parseEnvFile
      (Server.writeEnvFile {[ u16 "GROQ_API_KEY" := u16 "gsk_42" ]})
      !! u16 "NODE_ENV" = None.
Proof.
  destruct (writeEnvFile_roundtrip {[ u16 "GROQ_API_KEY" := u16 "gsk_42" ]})
    as (Hknown & Hother & _).
  { intros K HK. unfold Server.known_keys in HK.
    repeat (apply elem_of_cons in HK as [->|HK];
            [split; [apply (bool_decide_unpack _); vm_compute; exact I
                    |vm_compute; reflexivity]|]).
    inversion HK. }
  split; [|split].
  - etrans; [apply Hknown; apply (bool_decide_unpack _); vm_compute; exact I|].
    vm_compute; reflexivity.
  - etrans; [apply Hknown; apply (bool_decide_unpack _); vm_compute; exact I|].
    vm_compute; reflexivity.
  - apply Hother. apply (bool_decide_unpack _); vm_compute; exact I.
Defined.

(** The request on the sample file: the key given replaces the old one,
    the secret not given is kept, and the unknown variable is gone. *)
Lemma post_credentials_roundtrip_witness :
  Server.loadEnv (Some (Server.post_credentials sample_body
                          (Some sample_env_file)))
    !! u16 "X_API_KEY" = Some (u16 "n3wK3y")
  ∧ Server.loadEnv (Some (Server.post_credentials sample_body
                            (Some sample_env_file)))
      !! u16 "X_API_SECRET" = Some (u16 "s3cr3t==")
  ∧ Server.loadEnv (Some (Server.post_credentials sample_body
                            (Some sample_env_file)))
      !! u16 "X_ACCESS_TOKEN" = Some []
  ∧ Server.loadEnv (Some sample_env_file) !! u16 "NODE_ENV"
    = Some (u16 "production")
  ∧ Server.loadEnv (Some (Server.post_credentials sample_body
                            (Some sample_env_file)))
      !! u16 "NODE_ENV" = None.
Proof.
  destruct (post_credentials_roundtrip sample_body (Some sample_env_file))
    as [Hfield Hother].
  { intros f K v HfK Hf. unfold Server.credential_fields in HfK.
    repeat (apply elem_of_cons in HfK as [[= -> ->]|HfK];
            [vm_compute in Hf;
             first [discriminate Hf
                   |injection Hf as <-;
                    split; [apply (bool_decide_unpack _); vm_compute; exact I
                           |vm_compute; reflexivity]]|]).
    inversion HfK. }
  split; [|split; [|split; [|split]]].
  - etrans; [apply (Hfield Server.xApiKey); unfold Server.credential_fields;
             repeat first [apply list_elem_of_here
                          |apply list_elem_of_further]|].
    vm_compute; reflexivity.
  - etrans; [apply (Hfield Server.xApiSecret); unfold Server.credential_fields;
             repeat first [apply list_elem_of_here
                          |apply list_elem_of_further]|].
    vm_compute; reflexivity.
  - etrans; [apply (Hfield Server.xAccessToken); unfold Server.credential_fields;
             repeat first [apply list_elem_of_here
                          |apply list_elem_of_further]|].
    vm_compute; reflexivity.
  - vm_compute; reflexivity.
  - apply Hother. apply (bool_decide_unpack _); vm_compute; exact I.
Defined.

(** A short value, and two keys with the same ends. *)
Lemma maskValue_shows_ends_only_witness :
  Server.maskValue (Some (u16 "hunter2")) = Server.maskValue None
  ∧ Server.maskValue (Some (u16 "k1A9x7Qm2Zp0Lw4T"))
    = Server.maskValue (Some (u16 "k1A9--------Lw4T")).
Proof.
  destruct maskValue_shows_ends_only as (_ & Hshort & Hlong).
  split.
  - apply Hshort. vm_compute; lia.
  - apply Hlong.
    + vm_compute; lia.
    + vm_compute; lia.
    + vm_compute; reflexivity.
    + vm_compute; reflexivity.
Defined.

(** A quoted answer of the model. *)
Lemma cleanTweet_bound_witness :
  LlmClient.cleanTweet (Some (u16 " 'Ship it' ")) = Some (u16 "Ship it")
  ∧ (length (u16 "Ship it") ≤ 500)%nat
  ∧ LlmClient.cleanTweet (Some []) = None.
Proof.
  destruct (cleanTweet_bound (Some (u16 " 'Ship it' "))) as [_ Hsome].
  destruct (cleanTweet_bound (Some [])) as [Hnone _].
  split; [vm_compute; reflexivity|]. split.
  - apply (Hsome (u16 "Ship it")). vm_compute; reflexivity.
  - apply Hnone. right. reflexivity.
Defined.

(** A video added to a composer that holds an image; two images added to
    an empty composer. *)
Lemma addMedia_limits_witness :
  Composer.addMedia [clip] [Composer.newMedia photo]
    = [Composer.newMedia photo]
  ∧ Composer.addMedia [photo; photo] []
    = [Composer.newMedia photo; Composer.newMedia photo].
Proof.
  split.
  - apply (proj1 (proj2 (proj2 (addMedia_limits [clip]
                                  [Composer.newMedia photo])))).
    + vm_compute; reflexivity.
    + discriminate.
  - apply (proj2 (proj2 (proj2 (addMedia_limits [photo; photo] [])))).
    + vm_compute; reflexivity.
    + vm_compute; lia.
Defined.
